(** * Node WebUSB: the [USB] class of [src/usb.ts]

    A shallow embedding of the permission store, the filter matching, the
    request and discovery operations and the hot-plug relay of the [USB]
    class, with the properties its specification states about them.

    JavaScript values are modelled as the TypeScript types of the source give
    them: numbers of descriptors as [Z], strings as [string], an optional
    member of an object literal as [option], a value of type
    [USBDevice | void] as [option USBDevice] with [None] for [undefined].
    Reading a property of [undefined] throws; the operations that can do so
    live in a state-and-exception monad over the state of the class. *)

From Stdlib Require Import ZArith String List Bool Lia.
From stdpp Require Import base option list strings.

Local Open Scope string_scope.
Local Open Scope Z_scope.
Local Open Scope list_scope.

(** ** Device records *)

(** Modelled from the spec: the descriptor classes of [./device] are not part
    of the sources at hand. A device record carries its identity triple, a
    connected flag, its class, subclass and protocol codes and the ordered
    interfaces of its configuration, each with an alternate descriptor with
    codes of its own; [_handle] is the opaque handle a disconnect
    notification carries. *)
Record USBAlternateInterface := {
  interfaceClass : Z;
  interfaceSubclass : Z;
  interfaceProtocol : Z
}.

Record USBInterface := {
  alternate : USBAlternateInterface
}.

Record USBConfiguration := {
  interfaces : list USBInterface
}.

Record USBDevice := {
  vendorId : Z;
  productId : Z;
  serialNumber : string;
  connected : bool;
  deviceClass : Z;
  deviceSubclass : Z;
  deviceProtocol : Z;
  configuration : USBConfiguration;
  _handle : string
}.

(** A value of type [USBDevice | void]: [None] is [undefined]. *)
Definition JSDevice := option USBDevice.

(** ** Filters and request options *)

Module Filter.

(** [USBDeviceFilter] of [./interfaces], with the members the source reads:
    every member is optional, and the serial number criterion is read as
    [serialnumber]. *)
Record t := {
  vendorId : option Z;
  productId : option Z;
  classCode : option Z;
  subclassCode : option Z;
  protocolCode : option Z;
  serialnumber : option string
}.

(** The object literal [{}]. *)
Definition empty : t :=
  {| vendorId := None; productId := None; classCode := None;
     subclassCode := None; protocolCode := None; serialnumber := None |}.

End Filter.

Record USBDeviceRequestOptions := {
  filters : list Filter.t
}.

(** What a caller can hand to [requestDevice] at run time, as far as the
    checks of the function tell the values apart. *)
Inductive FiltersMember :=
| FiltersFalsy                       (* absent, undefined, null, 0, ... *)
| FiltersNotArray                    (* truthy, constructor is not Array *)
| FiltersArray (fs : list Filter.t).

Inductive OptionsArgument :=
| OptionsFalsy                       (* no argument, undefined, null, ... *)
| OptionsNotObject                   (* truthy, constructor is not Object *)
| OptionsObject (member : FiltersMember).

(** ** Truthiness and strict equality *)

Class Truthy (A : Type) := truthy : A -> bool.

#[export] Instance truthy_number : Truthy Z := fun n => negb (Z.eqb n 0).

#[export] Instance truthy_string : Truthy string :=
  fun s => match s with EmptyString => false | String _ _ => true end.

#[export] Instance truthy_optional {A} `{Truthy A} : Truthy (option A) :=
  fun o => match o with Some a => truthy a | None => false end.

(** An object is truthy. *)
#[export] Instance truthy_device : Truthy USBDevice := fun _ => true.

(** [member !== value] for an optional member against a defined value. *)
Definition differs {A} (eqb : A -> A -> bool) (member : option A) (value : A) : bool :=
  match member with
  | Some a => negb (eqb a value)
  | None => true
  end.

Notation "m '!==n' v" := (differs Z.eqb m v) (at level 70, no associativity).
Notation "m '!==s' v" := (differs String.eqb m v) (at level 70, no associativity).

(** ** Filter matching: [filterDevice] *)

(** The callback of the inner [some], over the interfaces. *)
Definition interfaceMatches (filter : Filter.t) (iface : USBInterface) : bool :=
  if truthy (Filter.classCode filter)
     && (Filter.classCode filter !==n interfaceClass (alternate iface)) then false
  else if truthy (Filter.subclassCode filter)
     && (Filter.subclassCode filter !==n interfaceSubclass (alternate iface)) then false
  else if truthy (Filter.protocolCode filter)
     && (Filter.protocolCode filter !==n interfaceProtocol (alternate iface)) then false
  else true.

(** The callback of the outer [some], over the filters. *)
Definition filterMatches (device : USBDevice) (filter : Filter.t) : bool :=
  if truthy (Filter.vendorId filter)
     && (Filter.vendorId filter !==n vendorId device) then false
  else if truthy (Filter.productId filter)
     && (Filter.productId filter !==n productId device) then false
  else if truthy (Filter.classCode filter)
     && existsb (interfaceMatches filter) (interfaces (configuration device)) then true
  else if truthy (Filter.classCode filter)
     && (Filter.classCode filter !==n deviceClass device) then false
  else if truthy (Filter.subclassCode filter)
     && (Filter.subclassCode filter !==n deviceSubclass device) then false
  else if truthy (Filter.protocolCode filter)
     && (Filter.protocolCode filter !==n deviceProtocol device) then false
  else if truthy (Filter.serialnumber filter)
     && (Filter.serialnumber filter !==s serialNumber device) then false
  else true.

Definition filterDevice (options : USBDeviceRequestOptions) (device : USBDevice) : bool :=
  existsb (filterMatches device) (filters options).

(** ** Thrown values, promises and the observable events *)

(** The values the code throws or rejects with. *)
Inductive Thrown :=
| TypeError (message : string)            (* new TypeError(message) *)
| Error (message : string)                (* new Error(message) *)
| Failure (description : string)          (* a rejection of the adapter or of the selection callback *)
| PropertyOfUndefined (property : string) (* the engine's error for [undefined.property] *)
| RequestError (cause : Thrown).          (* new Error(`requestDevice error: ${error}`) *)

Inductive Completion (A : Type) :=
| Normal (a : A)
| Throw (t : Thrown).
Arguments Normal {A} a.
Arguments Throw {A} t.

(** How the promise of [requestDevice] is settled. *)
Inductive Settlement :=
| Resolved (device : JSDevice)
| Rejected (reason : Thrown).

Inductive EventName := newListener | removeListener | connect | disconnect.

(** The listeners of the dispatcher: the two handlers the constructor
    installs, and the callbacks of clients, told apart by an identifier. *)
Inductive Listener :=
| NewListenerHook
| RemoveListenerHook
| Client (id : nat).

Inductive AdapterEvent := EVENT_DEVICE_CONNECT | EVENT_DEVICE_DISCONNECT.

(** The callbacks subscribed to the adapter: the two closures of this
    instance, and the callbacks of other parties. *)
Inductive AdapterCallback :=
| ConnectCallback
| DisconnectCallback
| Foreign (id : nat).

#[export] Instance EventName_eq_dec : EqDecision EventName.
Proof. solve_decision. Defined.
#[export] Instance Listener_eq_dec : EqDecision Listener.
Proof. solve_decision. Defined.
#[export] Instance AdapterEvent_eq_dec : EqDecision AdapterEvent.
Proof. solve_decision. Defined.
#[export] Instance AdapterCallback_eq_dec : EqDecision AdapterCallback.
Proof. solve_decision. Defined.

(** Calls that leave the class, in the order they happen. *)
Inductive Observation :=
| ListUSBDevices                                    (* adapter.listUSBDevices() *)
| DevicesFound (candidates : list USBDevice)        (* this.devicesFound(devices) *)
| Emit (event : EventName) (payload : USBDevice) (receivers : list Listener).

(** ** The state *)

Definition SelectionCallback := list USBDevice -> Completion JSDevice.

Record USBOptions := {
  options_devicesFound : option SelectionCallback
}.

(** The fields of the instance ([allowedDevices], [devicesFound] and the
    listeners it inherits from the dispatcher), the listeners of the adapter,
    the promise [requestDevice] is building and the trace of outside calls. *)
Record World := {
  allowedDevices : list JSDevice;
  devicesFound : option SelectionCallback;
  listeners : EventName -> list Listener;
  adapterListeners : AdapterEvent -> list AdapterCallback;
  settled : option Settlement;
  log : list Observation
}.

Definition set_allowedDevices (f : list JSDevice -> list JSDevice) (w : World) : World :=
  {| allowedDevices := f (allowedDevices w); devicesFound := devicesFound w;
     listeners := listeners w; adapterListeners := adapterListeners w;
     settled := settled w; log := log w |}.

Definition set_devicesFound (v : option SelectionCallback) (w : World) : World :=
  {| allowedDevices := allowedDevices w; devicesFound := v;
     listeners := listeners w; adapterListeners := adapterListeners w;
     settled := settled w; log := log w |}.

Definition set_listeners (f : (EventName -> list Listener) -> EventName -> list Listener)
    (w : World) : World :=
  {| allowedDevices := allowedDevices w; devicesFound := devicesFound w;
     listeners := f (listeners w); adapterListeners := adapterListeners w;
     settled := settled w; log := log w |}.

Definition set_adapterListeners
    (f : (AdapterEvent -> list AdapterCallback) -> AdapterEvent -> list AdapterCallback)
    (w : World) : World :=
  {| allowedDevices := allowedDevices w; devicesFound := devicesFound w;
     listeners := listeners w; adapterListeners := f (adapterListeners w);
     settled := settled w; log := log w |}.

Definition set_settled (v : option Settlement) (w : World) : World :=
  {| allowedDevices := allowedDevices w; devicesFound := devicesFound w;
     listeners := listeners w; adapterListeners := adapterListeners w;
     settled := v; log := log w |}.

Definition record (o : Observation) (w : World) : World :=
  {| allowedDevices := allowedDevices w; devicesFound := devicesFound w;
     listeners := listeners w; adapterListeners := adapterListeners w;
     settled := settled w; log := log w ++ [o] |}.

(** Update of a table of listeners at one key. *)
Definition at_key {K V} `{EqDecision K} (k : K) (g : V -> V) (f : K -> V) : K -> V :=
  fun k' => if decide (k' = k) then g (f k') else f k'.

(** ** The monad: state and exceptions *)

Definition M (A : Type) : Type := World -> Completion A * World.

Definition ret {A} (a : A) : M A := fun w => (Normal a, w).

Definition bind {A B} (m : M A) (f : A -> M B) : M B := fun w =>
  match m w with
  | (Normal a, w') => f a w'
  | (Throw t, w') => (Throw t, w')
  end.

Notation "'let!' x ':=' m 'in' k" := (bind m (fun x => k))
  (at level 10, x name, m at level 100, k at level 200).
Notation "m >> k" := (bind m (fun _ => k))
  (at level 100, k at level 200, right associativity).

Definition throw {A} (t : Thrown) : M A := fun w => (Throw t, w).

(** [m.catch(h)], or [try m catch h]. *)
Definition catch {A} (m : M A) (h : Thrown -> M A) : M A := fun w =>
  match m w with
  | (Normal a, w') => (Normal a, w')
  | (Throw t, w') => h t w'
  end.

Definition gets {A} (f : World -> A) : M A := fun w => (Normal (f w), w).

Definition modify (f : World -> World) : M unit := fun w => (Normal tt, f w).

(** [every], [filter], [find] and [forEach] of arrays, with a callback that
    may throw and change the state; each stops at the first throw. *)
Fixpoint every {A} (p : A -> M bool) (l : list A) : M bool :=
  match l with
  | [] => ret true
  | x :: l' => let! b := p x in if b then every p l' else ret false
  end.

Fixpoint filterM {A} (p : A -> M bool) (l : list A) : M (list A) :=
  match l with
  | [] => ret []
  | x :: l' => let! b := p x in let! r := filterM p l' in ret (if b then x :: r else r)
  end.

Fixpoint findM {A} (p : A -> M bool) (l : list A) : M (option A) :=
  match l with
  | [] => ret None
  | x :: l' => let! b := p x in if b then ret (Some x) else findM p l'
  end.

Fixpoint forEach {A} (f : A -> M unit) (l : list A) : M unit :=
  match l with
  | [] => ret tt
  | x :: l' => f x >> forEach f l'
  end.

(** [value.property]: throws when [value] is [undefined]. *)
Definition property {A} (name : string) (get : USBDevice -> A) (value : JSDevice) : M A :=
  match value with
  | Some d => ret (get d)
  | None => throw (PropertyOfUndefined name)
  end.

(** ** The permission store *)

Definition isSameDevice (device1 device2 : JSDevice) : M bool :=
  let! p1 := property "productId" productId device1 in
  let! p2 := property "productId" productId device2 in
  if negb (Z.eqb p1 p2) then ret false else
  let! v1 := property "vendorId" vendorId device1 in
  let! v2 := property "vendorId" vendorId device2 in
  if negb (Z.eqb v1 v2) then ret false else
  let! s1 := property "serialNumber" serialNumber device1 in
  let! s2 := property "serialNumber" serialNumber device2 in
  ret (String.eqb s1 s2).

(** [this.allowedDevices[i]]: [undefined] past the end. *)
Definition allowedDevice_at (i : nat) : M JSDevice :=
  gets (fun w => default None (allowedDevices w !! i)).

(** The [for ... in] loop of [replaceAllowedDevice] over the keys. *)
Fixpoint replaceAllowedDevice_loop (device : JSDevice) (keys : list nat) : M bool :=
  match keys with
  | [] => ret false
  | i :: keys' =>
      let! entry := allowedDevice_at i in
      let! same := isSameDevice device entry in
      if same
      then modify (set_allowedDevices (fun l => <[i := device]> l)) >> ret true
      else replaceAllowedDevice_loop device keys'
  end.

Definition replaceAllowedDevice (device : JSDevice) : M bool :=
  let! n := gets (fun w => length (allowedDevices w)) in
  replaceAllowedDevice_loop device (seq 0 n).

(** ** The adapter *)

(** Modelled from the spec: the adapter of [./adapter] is not part of the
    sources at hand. [adapter.listUSBDevices()], awaited, resolves with the
    sequence of the known devices or fails; the enumeration the adapter
    answers with is an input of the operation, and the call is recorded. *)
Definition listUSBDevices (enumeration : Completion (list USBDevice)) : M (list USBDevice) :=
  modify (record ListUSBDevices) >>
  match enumeration with
  | Normal devices => ret devices
  | Throw t => throw t
  end.

(** Removal of one listener from the listeners of an event: the most
    recently added occurrence goes; [None] when there is none. *)
Fixpoint removeLast {A} `{EqDecision A} (x : A) (l : list A) : option (list A) :=
  match l with
  | [] => None
  | y :: l' =>
      match removeLast x l' with
      | Some r => Some (y :: r)
      | None => if decide (y = x) then Some l' else None
      end
  end.

(** Modelled from the spec: see [listUSBDevices]. The subscription
    primitive of the adapter, [addListener] and [removeListener], for its two
    native events. *)
Definition adapter_addListener (event : AdapterEvent) (callback : AdapterCallback) : M unit :=
  modify (set_adapterListeners (at_key event (fun l => l ++ [callback]))).

(** Modelled from the spec: see [listUSBDevices]. *)
Definition adapter_removeListener (event : AdapterEvent) (callback : AdapterCallback) : M unit :=
  modify (set_adapterListeners (at_key event (fun l => default l (removeLast callback l)))).

(** ** Device discovery: [getDevices] *)

(** The [for ... in] loop inside the callback of [filter]. *)
Fixpoint getDevices_loop (device : USBDevice) (keys : list nat) : M bool :=
  match keys with
  | [] => ret false
  | i :: keys' =>
      let! entry := allowedDevice_at i in
      let! same := isSameDevice (Some device) entry in
      if same then ret true else getDevices_loop device keys'
  end.

Definition getDevices_callback (device : USBDevice) : M bool :=
  if negb (connected device) then ret false else
  let! n := gets (fun w => length (allowedDevices w)) in
  getDevices_loop device (seq 0 n).

(** The result is the completion of the promise: [Throw] is a rejection. *)
Definition getDevices (enumeration : Completion (list USBDevice)) : M (list USBDevice) :=
  let! devices := listUSBDevices enumeration in
  filterM getDevices_callback devices.

(** ** Requests: [requestDevice] *)

(** [resolve] and [reject] of the promise: only the first call settles it. *)
Definition settle (s : Settlement) : M unit :=
  modify (fun w => match settled w with
                   | None => set_settled (Some s) w
                   | Some _ => w
                   end).

Definition resolve (device : JSDevice) : M unit := settle (Resolved device).
Definition reject (reason : Thrown) : M unit := settle (Rejected reason).

Definition selectFn (device : JSDevice) : M unit :=
  let! replaced := replaceAllowedDevice device in
  (if negb replaced
   then modify (set_allowedDevices (fun l => l ++ [device]))
   else ret tt) >>
  resolve device.

(** The callback of [every]: the hierarchy of the class family. *)
Definition checkFilter (filter : Filter.t) : M bool :=
  if truthy (Filter.protocolCode filter) && negb (truthy (Filter.subclassCode filter))
  then reject (TypeError "requestDevice error: subclass code is required") >> ret false
  else if truthy (Filter.subclassCode filter) && negb (truthy (Filter.classCode filter))
  then reject (TypeError "requestDevice error: class code is required") >> ret false
  else ret true.

(** [this.devicesFound(devices)], awaited. *)
Definition callDevicesFound (callback : SelectionCallback) (devices : list USBDevice) : M JSDevice :=
  modify (record (DevicesFound devices)) >>
  match callback devices with
  | Normal device => ret device
  | Throw t => throw t
  end.

(** The callback of [then] on the enumeration of the adapter. *)
Definition requestDevice_listed (options : USBDeviceRequestOptions)
    (listed : list USBDevice) : M unit :=
  let devices := List.filter (filterDevice options) listed in
  if (length devices =? 0)%nat
  then reject (Error "requestDevice error: no devices found")
  else
    let! callback := gets devicesFound in
    match callback with
    | None => selectFn (head devices)
    | Some found =>
        let! device := callDevicesFound found devices in
        (if negb (truthy device)
         then reject (Error "selected device not found")
         else ret tt) >>
        selectFn device
    end.

(** The executor handed to [new Promise]. *)
Definition requestDevice_executor (options : OptionsArgument)
    (enumeration : Completion (list USBDevice)) : M unit :=
  match options with
  | OptionsFalsy =>
      reject (TypeError "requestDevice error: 1 argument required, but only 0 present")
  | OptionsNotObject =>
      reject (TypeError "requestDevice error: parameter 1 (options) is not an object")
  | OptionsObject FiltersFalsy =>
      reject (TypeError "requestDevice error: required member filters is undefined")
  | OptionsObject FiltersNotArray =>
      reject (TypeError "requestDevice error: the provided value cannot be converted to a sequence")
  | OptionsObject (FiltersArray fs) =>
      let! check := every checkFilter fs in
      if negb check then ret tt else
      catch
        (let! listed := listUSBDevices enumeration in
         requestDevice_listed {| filters := fs |} listed)
        (fun error => reject (RequestError error))
  end.

(** [requestDevice]: a fresh promise, the executor, and how the promise ends
    ([None]: never settled). An executor that throws rejects its promise. *)
Definition requestDevice (options : OptionsArgument)
    (enumeration : Completion (list USBDevice)) (w : World) : option Settlement * World :=
  match requestDevice_executor options enumeration (set_settled None w) with
  | (Normal _, w') => (settled w', w')
  | (Throw t, w') => let w'' := snd (reject t w') in (settled w'', w'')
  end.

(** ** The dispatcher *)

(** Modelled from the spec: the dispatcher the class extends ([./dispatcher],
    an event emitter) is not part of the sources at hand. Listeners are kept
    per event kind in the order they were added. Adding a listener is
    announced on [newListener] to the listeners of that kind and then the
    listener is stored, so that the count a handler reads is the count
    before the addition and the first listener of a kind finds 0; removing
    a listener takes its most recent occurrence out and is then announced on
    [removeListener], so that the last listener of a kind leaves 0 behind;
    removing a listener that is not registered announces nothing. What a
    client's callback does is outside the class: here it does nothing. *)
Definition listenerCount (event : EventName) : M nat :=
  gets (fun w => length (listeners w event)).

(** ** The hot-plug relay *)

(** [this.on("newListener", event => ...)] *)
Definition onNewListener (event : EventName) : M unit :=
  let! count := listenerCount event in
  if negb (count =? 0)%nat then ret tt else
  match event with
  | connect => adapter_addListener EVENT_DEVICE_CONNECT ConnectCallback
  | disconnect => adapter_addListener EVENT_DEVICE_DISCONNECT DisconnectCallback
  | _ => ret tt
  end.

(** [this.on("removeListener", event => ...)] *)
Definition onRemoveListener (event : EventName) : M unit :=
  let! count := listenerCount event in
  if negb (count =? 0)%nat then ret tt else
  match event with
  | connect => adapter_removeListener EVENT_DEVICE_CONNECT ConnectCallback
  | disconnect => adapter_removeListener EVENT_DEVICE_DISCONNECT DisconnectCallback
  | _ => ret tt
  end.

Definition runListener (event : EventName) (listener : Listener) : M unit :=
  match listener with
  | NewListenerHook => onNewListener event
  | RemoveListenerHook => onRemoveListener event
  | Client _ => ret tt
  end.

(** Modelled from the spec: see [listenerCount]. [announce name event] emits
    [name] with the event kind [event] as its argument. *)
Definition announce (name event : EventName) : M unit :=
  let! receivers := gets (fun w => listeners w name) in
  forEach (runListener event) receivers.

(** Modelled from the spec: see [listenerCount]. *)
Definition on (event : EventName) (listener : Listener) : M unit :=
  announce newListener event >>
  modify (set_listeners (at_key event (fun l => l ++ [listener]))).

(** Modelled from the spec: see [listenerCount]. *)
Definition off (event : EventName) (listener : Listener) : M unit :=
  let! registered := gets (fun w => listeners w event) in
  match removeLast listener registered with
  | None => ret tt
  | Some rest =>
      modify (set_listeners (at_key event (fun _ => rest))) >>
      announce removeListener event
  end.

(** Modelled from the spec: see [listenerCount]. [this.emit(event, device)]
    hands the record to the listeners of [event]. *)
Definition emit (event : EventName) (payload : USBDevice) : M unit :=
  let! receivers := gets (fun w => listeners w event) in
  modify (record (Emit event payload receivers)).

Definition deviceConnectCallback (device : USBDevice) : M unit :=
  let! replaced := replaceAllowedDevice (Some device) in
  if replaced then emit connect device else ret tt.

Definition deviceDisconnectCallback (handle : string) : M unit :=
  let! entries := gets allowedDevices in
  let! allowedDevice :=
    findM (fun entry => let! h := property "_handle" _handle entry in
                        ret (String.eqb h handle)) entries in
  match allowedDevice with
  | Some (Some device) => emit disconnect device
  | _ => ret tt
  end.

(** ** Construction *)

(** Before the constructor runs: nothing allowed, no listener, and on the
    adapter only callbacks of other parties. *)
Definition blank (foreign : AdapterEvent -> list nat) : World :=
  {| allowedDevices := []; devicesFound := None;
     listeners := fun _ => [];
     adapterListeners := fun event => map Foreign (foreign event);
     settled := None; log := [] |}.

Definition constructor (options : option USBOptions) : M unit :=
  let options := default {| options_devicesFound := None |} options in
  modify (set_devicesFound (options_devicesFound options)) >>
  on newListener NewListenerHook >>
  on removeListener RemoveListenerHook.

Definition new_USB (options : option USBOptions) (foreign : AdapterEvent -> list nat) : World :=
  snd (constructor options (blank foreign)).

(** ** Notifications of the adapter and the operations of a client *)

Inductive Notification :=
| DeviceConnected (device : USBDevice)
| DeviceDisconnected (handle : string).

Definition nativeEvent (n : Notification) : AdapterEvent :=
  match n with
  | DeviceConnected _ => EVENT_DEVICE_CONNECT
  | DeviceDisconnected _ => EVENT_DEVICE_DISCONNECT
  end.

Definition runAdapterCallback (n : Notification) (callback : AdapterCallback) : M unit :=
  match callback, n with
  | ConnectCallback, DeviceConnected device => deviceConnectCallback device
  | DisconnectCallback, DeviceDisconnected handle => deviceDisconnectCallback handle
  | _, _ => ret tt
  end.

(** The adapter emits a native event: every callback subscribed to it runs. *)
Definition notify (n : Notification) : M unit :=
  let! callbacks := gets (fun w => adapterListeners w (nativeEvent n)) in
  forEach (runAdapterCallback n) callbacks.

Inductive Operation :=
| GetDevices (enumeration : Completion (list USBDevice))
| RequestDevice (options : OptionsArgument) (enumeration : Completion (list USBDevice))
| AddListener (event : EventName) (id : nat)
| RemoveListener (event : EventName) (id : nat)
| Notify (n : Notification).

Definition step (w : World) (op : Operation) : World :=
  match op with
  | GetDevices enumeration => snd (getDevices enumeration w)
  | RequestDevice options enumeration => snd (requestDevice options enumeration w)
  | AddListener event id => snd (on event (Client id) w)
  | RemoveListener event id => snd (off event (Client id) w)
  | Notify n => snd (notify n w)
  end.

Definition run (ops : list Operation) (w : World) : World := fold_left step ops w.

(** The number of subscriptions the instance holds on the adapter for an
    event kind of its own. *)
Definition subscriptions (event : EventName) (w : World) : nat :=
  match event with
  | connect => count_occ AdapterCallback_eq_dec (adapterListeners w EVENT_DEVICE_CONNECT) ConnectCallback
  | disconnect => count_occ AdapterCallback_eq_dec (adapterListeners w EVENT_DEVICE_DISCONNECT) DisconnectCallback
  | _ => 0%nat
  end.

(** * Vocabulary of the properties *)

(** A property of the state that a computation keeps, however it ends. *)
Definition preserves {A} (I : World -> Prop) (m : M A) : Prop :=
  forall w, I w -> I (snd (m w)).

(** The identity triple of a device record. *)
Definition identity (d : USBDevice) : Z * Z * string :=
  (vendorId d, productId d, serialNumber d).

(** The comparison [isSameDevice] makes, on two device records. *)
Definition sameIdentity (a b : USBDevice) : bool :=
  Z.eqb (productId a) (productId b) && Z.eqb (vendorId a) (vendorId b)
  && String.eqb (serialNumber a) (serialNumber b).

(** What the loop of [replaceAllowedDevice] computes on the entries it
    walks, as the lemma [replaceAllowedDevice_loop_spec] shows: the entries with the
    first one of the identity of [device] replaced by [device], [None] when
    it reaches the end without a match, and a throw at the first comparison
    that reads a property of [undefined]. *)
Fixpoint replaceFirst (device : JSDevice) (entries : list JSDevice)
    : Completion (option (list JSDevice)) :=
  match entries with
  | [] => Normal None
  | e :: rest =>
      match device, e with
      | Some d, Some x =>
          if sameIdentity d x then Normal (Some (device :: rest))
          else match replaceFirst device rest with
               | Normal (Some r) => Normal (Some (e :: r))
               | other => other
               end
      | _, _ => Throw (PropertyOfUndefined "productId")
      end
  end.

(** The identities of the entries that are device records. *)
Fixpoint identities (entries : list JSDevice) : list (Z * Z * string) :=
  match entries with
  | [] => []
  | Some d :: rest => identity d :: identities rest
  | None :: rest => identities rest
  end.

(** No two entries of the list share an identity triple. *)
Definition uniqueIdentities (entries : list JSDevice) : Prop :=
  NoDup (identities entries).

(** A property of the state that does not depend on the trace, on the
    promise, or on the allowed devices. *)
Definition ignoresLog (I : World -> Prop) : Prop :=
  forall w o, I w -> I (record o w).
Definition ignoresPromise (I : World -> Prop) : Prop :=
  forall w v, I w -> I (set_settled v w).
Definition ignoresAllowed (I : World -> Prop) : Prop :=
  forall w f, I w -> I (set_allowedDevices f w).

(** Whether the serial number criterion of a filter fails on a device: the
    test of the last [if] of the callback. *)
Definition serialFails (filter : Filter.t) (device : USBDevice) : bool :=
  truthy (Filter.serialnumber filter)
  && (Filter.serialnumber filter !==s serialNumber device).

(** The two tests of the callback of [every]: a filter sets a protocol code
    without a subclass code, or a subclass code without a class code; a
    member is set when it is truthy. *)
Definition protocolWithoutSubclass (filter : Filter.t) : bool :=
  truthy (Filter.protocolCode filter) && negb (truthy (Filter.subclassCode filter)).

Definition subclassWithoutClass (filter : Filter.t) : bool :=
  truthy (Filter.subclassCode filter) && negb (truthy (Filter.classCode filter)).

(** Neither test fires. *)
Definition hierarchyComplete (filter : Filter.t) : bool :=
  negb (protocolWithoutSubclass filter) && negb (subclassWithoutClass filter).

(** A numeric member that is 0, read as absent. *)
Definition dropZero (member : option Z) : option Z :=
  match member with
  | Some 0 => None
  | other => other
  end.

(** The filter with every numeric member that is 0 taken out. *)
Definition dropZeros (filter : Filter.t) : Filter.t :=
  {| Filter.vendorId := dropZero (Filter.vendorId filter);
     Filter.productId := dropZero (Filter.productId filter);
     Filter.classCode := dropZero (Filter.classCode filter);
     Filter.subclassCode := dropZero (Filter.subclassCode filter);
     Filter.protocolCode := dropZero (Filter.protocolCode filter);
     Filter.serialnumber := Filter.serialnumber filter |}.

(** A computation that, when it ends without a throw, leaves the promise
    settled. *)
Definition endsSettled {A} (m : M A) : Prop :=
  forall w, match m w with
            | (Normal _, w') => settled w' <> None
            | (Throw _, _) => True
            end.

(** A property of the state that does not depend on the listeners of the
    instance or of the adapter. *)
Definition ignoresListeners (I : World -> Prop) : Prop :=
  (forall w f, I w -> I (set_listeners f w)) /\
  (forall w f, I w -> I (set_adapterListeners f w)).

(** The allowed devices of a state are unique by identity. *)
Definition allowedUnique (w : World) : Prop := uniqueIdentities (allowedDevices w).

(** A listener is one of the two handlers of the constructor. *)
Definition isHook (listener : Listener) : bool :=
  match listener with
  | Client _ => false
  | _ => true
  end.

(** The handlers of the constructor among some listeners. *)
Abbreviation hooks := (List.filter isHook).

(** What holds of the listeners in every state: the two handlers are each
    registered once, under their own event, and for each kind of hot-plug
    event the instance is subscribed to the adapter once while the kind has
    listeners and not at all while it has none. *)
Record relayInvariant (w : World) : Prop := {
  inv_newListener : hooks (listeners w newListener) = [NewListenerHook];
  inv_removeListener : hooks (listeners w removeListener) = [RemoveListenerHook];
  inv_connect :
    subscriptions connect w
    = if (length (listeners w connect) =? 0)%nat then 0%nat else 1%nat;
  inv_disconnect :
    subscriptions disconnect w
    = if (length (listeners w disconnect) =? 0)%nat then 0%nat else 1%nat
}.

(** The allowed device records after the selection of [d], as the lemma
    [selectFn_records] shows: [d] in the place of the first entry of its
    identity, or at the end when there is none. *)
Fixpoint upsert (d : USBDevice) (entries : list USBDevice) : list USBDevice :=
  match entries with
  | [] => [d]
  | e :: rest => if sameIdentity d e then d :: rest else e :: upsert d rest
  end.

(** One numeric criterion of a filter passes on a value: the member is not
    truthy, or it is the value. *)
Definition passes (member : option Z) (value : Z) : bool :=
  negb (truthy member && (member !==n value)).

(** A callback subscribed to the adapter by another party. *)
Definition isForeign (callback : AdapterCallback) : bool :=
  match callback with
  | Foreign _ => true
  | _ => false
  end.

(** An operation is a request. *)
Definition isRequest (op : Operation) : bool :=
  match op with
  | RequestDevice _ _ => true
  | _ => false
  end.

(** * Sample devices, filters and states *)

(** An HID interface. *)
Definition hidInterface : USBInterface :=
  {| alternate := {| interfaceClass := 3; interfaceSubclass := 1; interfaceProtocol := 2 |} |}.

(** A device of class 0 (per interface) with one HID interface. *)
Definition hidDevice : USBDevice :=
  {| vendorId := 9025; productId := 32822; serialNumber := "A1"; connected := true;
     deviceClass := 0; deviceSubclass := 0; deviceProtocol := 0;
     configuration := {| interfaces := [hidInterface] |}; _handle := "handle-1" |}.

(** [{classCode: 3, serialnumber: "B2"}] *)
Definition hidFilterOtherSerial : Filter.t :=
  {| Filter.vendorId := None; Filter.productId := None; Filter.classCode := Some 3;
     Filter.subclassCode := None; Filter.protocolCode := None;
     Filter.serialnumber := Some "B2" |}.

(** [{protocolCode: 1}], [{subclassCode: 2}] and [{classCode: 3}] *)
Definition protocolOnly : Filter.t :=
  {| Filter.vendorId := None; Filter.productId := None; Filter.classCode := None;
     Filter.subclassCode := None; Filter.protocolCode := Some 1;
     Filter.serialnumber := None |}.

Definition subclassOnly : Filter.t :=
  {| Filter.vendorId := None; Filter.productId := None; Filter.classCode := None;
     Filter.subclassCode := Some 2; Filter.protocolCode := None;
     Filter.serialnumber := None |}.

Definition classOnly : Filter.t :=
  {| Filter.vendorId := None; Filter.productId := None; Filter.classCode := Some 3;
     Filter.subclassCode := None; Filter.protocolCode := None;
     Filter.serialnumber := None |}.

(** [{vendorId: 0, productId: 0, classCode: 0, subclassCode: 0, protocolCode: 0}] *)
Definition allZeros : Filter.t :=
  {| Filter.vendorId := Some 0; Filter.productId := Some 0; Filter.classCode := Some 0;
     Filter.subclassCode := Some 0; Filter.protocolCode := Some 0;
     Filter.serialnumber := None |}.

(** [{protocolCode: 5, subclassCode: 0}] *)
Definition protocolWithSubclassZero : Filter.t :=
  {| Filter.vendorId := None; Filter.productId := None; Filter.classCode := None;
     Filter.subclassCode := Some 0; Filter.protocolCode := Some 5;
     Filter.serialnumber := None |}.

(** The same device, unplugged. *)
Definition hidDeviceUnplugged : USBDevice :=
  {| vendorId := 9025; productId := 32822; serialNumber := "A1"; connected := false;
     deviceClass := 0; deviceSubclass := 0; deviceProtocol := 0;
     configuration := {| interfaces := [hidInterface] |}; _handle := "handle-1" |}.

(** Another device: same vendor and product, another serial number. *)
Definition otherDevice : USBDevice :=
  {| vendorId := 9025; productId := 32822; serialNumber := "C3"; connected := true;
     deviceClass := 2; deviceSubclass := 0; deviceProtocol := 0;
     configuration := {| interfaces := [] |}; _handle := "handle-2" |}.

(** A state with the given allowed devices and nothing else. *)
Definition withAllowed (entries : list JSDevice) : World :=
  set_allowedDevices (fun _ => entries) (new_USB None (fun _ => [])).

(** A callback that answers with [otherDevice] whatever the candidates. *)
Definition alwaysOther : SelectionCallback := fun _ => Normal (Some otherDevice).

(** A callback that answers with no device. *)
Definition nothingSelected : SelectionCallback := fun _ => Normal None.

(** A callback that fails. *)
Definition cancelled : SelectionCallback := fun _ => Throw (Failure "cancelled").

(** A new instance with the given selection callback. *)
Definition withCallback (callback : SelectionCallback) : World :=
  new_USB (Some {| options_devicesFound := Some callback |}) (fun _ => []).

(** * Properties *)

(** ** Reasoning in the monad *)

Lemma bind_normal {A B} (m : M A) (f : A -> M B) w a w' :
  m w = (Normal a, w') -> bind m f w = f a w'.
Proof. intros E. unfold bind. now rewrite E. Qed.

Lemma bind_throw {A B} (m : M A) (f : A -> M B) w t w' :
  m w = (Throw t, w') -> bind m f w = (Throw t, w').
Proof. intros E. unfold bind. now rewrite E. Qed.

Lemma bind_ext {A B} (m : M A) (f g : A -> M B) w :
  (forall a w', f a w' = g a w') -> bind m f w = bind m g w.
Proof. intros E. unfold bind. destruct (m w) as [[a|t] w']; auto. Qed.

Lemma catch_ext {A} (m m' : M A) (h : Thrown -> M A) w :
  m w = m' w -> catch m h w = catch m' h w.
Proof. intros E. unfold catch. now rewrite E. Qed.

Lemma preserves_ret {A} I (a : A) : preserves I (ret a).
Proof. intros w H. exact H. Qed.

Lemma preserves_throw {A} I t : preserves I (@throw A t).
Proof. intros w H. exact H. Qed.

Lemma preserves_gets {A} I (f : World -> A) : preserves I (gets f).
Proof. intros w H. exact H. Qed.

Lemma preserves_modify I (f : World -> World) :
  (forall w, I w -> I (f w)) -> preserves I (modify f).
Proof. intros Hf w H. apply Hf, H. Qed.

Lemma preserves_bind {A B} I (m : M A) (f : A -> M B) :
  preserves I m -> (forall a, preserves I (f a)) -> preserves I (bind m f).
Proof.
  intros Hm Hf w H. unfold bind. specialize (Hm w H).
  destruct (m w) as [[a|t] w']; simpl in *; [now apply Hf | exact Hm].
Qed.

Lemma preserves_catch {A} I (m : M A) (h : Thrown -> M A) :
  preserves I m -> (forall t, preserves I (h t)) -> preserves I (catch m h).
Proof.
  intros Hm Hh w H. unfold catch. specialize (Hm w H).
  destruct (m w) as [[a|t] w']; simpl in *; [exact Hm | now apply Hh].
Qed.

Lemma preserves_if {A} I (b : bool) (m1 m2 : M A) :
  preserves I m1 -> preserves I m2 -> preserves I (if b then m1 else m2).
Proof. now destruct b. Qed.

Lemma preserves_every {A} I (p : A -> M bool) l :
  (forall x, preserves I (p x)) -> preserves I (every p l).
Proof.
  intros Hp. induction l as [|x l IH]; simpl.
  - apply preserves_ret.
  - apply preserves_bind; [apply Hp|]. intros []; [exact IH | apply preserves_ret].
Qed.

Lemma preserves_filterM {A} I (p : A -> M bool) l :
  (forall x, preserves I (p x)) -> preserves I (filterM p l).
Proof.
  intros Hp. induction l as [|x l IH]; simpl.
  - apply preserves_ret.
  - apply preserves_bind; [apply Hp|]. intros b.
    apply preserves_bind; [exact IH|]. intros r. apply preserves_ret.
Qed.

Lemma preserves_findM {A} I (p : A -> M bool) l :
  (forall x, preserves I (p x)) -> preserves I (findM p l).
Proof.
  intros Hp. induction l as [|x l IH]; simpl.
  - apply preserves_ret.
  - apply preserves_bind; [apply Hp|]. intros []; [apply preserves_ret | exact IH].
Qed.

Lemma preserves_forEach {A} I (f : A -> M unit) l :
  (forall x, preserves I (f x)) -> preserves I (forEach f l).
Proof.
  intros Hf. induction l as [|x l IH]; simpl.
  - apply preserves_ret.
  - apply preserves_bind; [apply Hf | intros _; exact IH].
Qed.

Lemma preserves_property {A} I name (get : USBDevice -> A) v :
  preserves I (property name get v).
Proof. destruct v; [apply preserves_ret | apply preserves_throw]. Qed.

Create HintDb keeps discriminated.
#[export] Hint Resolve preserves_ret preserves_throw preserves_gets preserves_bind
  preserves_catch preserves_if preserves_every preserves_filterM preserves_findM
  preserves_forEach preserves_property : keeps.

(** ** Identity of devices *)

Lemma sameIdentity_spec a b : sameIdentity a b = true <-> identity a = identity b.
Proof.
  unfold sameIdentity, identity. rewrite !andb_true_iff, !Z.eqb_eq, String.eqb_eq.
  split; [intros [[-> ->] ->]; reflexivity | intros [= -> -> ->]; auto].
Qed.

Lemma sameIdentity_false a b : sameIdentity a b = false <-> identity a <> identity b.
Proof.
  rewrite <- sameIdentity_spec. destruct (sameIdentity a b); split; congruence.
Qed.

Lemma isSameDevice_defined a b w :
  isSameDevice (Some a) (Some b) w = (Normal (sameIdentity a b), w).
Proof.
  unfold isSameDevice, sameIdentity, bind, property, ret.
  destruct (Z.eqb (productId a) (productId b)); simpl; [|reflexivity].
  destruct (Z.eqb (vendorId a) (vendorId b)); reflexivity.
Qed.

Lemma isSameDevice_undefined_l e w :
  isSameDevice None e w = (Throw (PropertyOfUndefined "productId"), w).
Proof. reflexivity. Qed.

Lemma isSameDevice_undefined_r a w :
  isSameDevice (Some a) None w = (Throw (PropertyOfUndefined "productId"), w).
Proof. reflexivity. Qed.

Lemma preserves_isSameDevice I a b : preserves I (isSameDevice a b).
Proof.
  intros w H. destruct a as [a|]; [destruct b as [b|]|].
  - now rewrite isSameDevice_defined.
  - now rewrite isSameDevice_undefined_r.
  - now rewrite isSameDevice_undefined_l.
Qed.
#[export] Hint Resolve preserves_isSameDevice : keeps.

(** ** The loop of [replaceAllowedDevice] *)

Lemma allowedDevice_at_middle pre e l w :
  allowedDevices w = pre ++ e :: l ->
  allowedDevice_at (length pre) w = (Normal e, w).
Proof.
  intros E. unfold allowedDevice_at, gets. rewrite E.
  now rewrite list_lookup_middle.
Qed.

Lemma set_allowedDevices_eq f g w :
  f (allowedDevices w) = g (allowedDevices w) ->
  set_allowedDevices f w = set_allowedDevices g w.
Proof. intros E. unfold set_allowedDevices. now rewrite E. Qed.

Lemma replaceAllowedDevice_loop_spec device l : forall pre w,
  allowedDevices w = pre ++ l ->
  replaceAllowedDevice_loop device (seq (length pre) (length l)) w =
  match replaceFirst device l with
  | Normal (Some r) => (Normal true, set_allowedDevices (fun _ => pre ++ r) w)
  | Normal None => (Normal false, w)
  | Throw t => (Throw t, w)
  end.
Proof.
  induction l as [|e l IH]; intros pre w E; [reflexivity|].
  cbn [length seq replaceAllowedDevice_loop replaceFirst].
  rewrite (bind_normal _ _ _ _ _ (allowedDevice_at_middle _ _ _ _ E)).
  destruct device as [d|]; [destruct e as [x|]|].
  - rewrite (bind_normal _ _ _ _ _ (isSameDevice_defined d x w)).
    destruct (sameIdentity d x).
    + unfold bind, modify, ret. f_equal. apply set_allowedDevices_eq.
      rewrite E. rewrite insert_app_r_alt by lia.
      now rewrite Nat.sub_diag.
    + specialize (IH (pre ++ [Some x]) w).
      rewrite length_app, Nat.add_1_r in IH. simpl in IH.
      rewrite IH by (now rewrite <- app_assoc).
      destruct (replaceFirst (Some d) l) as [[r|]|t]; try reflexivity.
      now rewrite <- app_assoc.
  - now rewrite (bind_throw _ _ _ _ _ (isSameDevice_undefined_r d w)).
  - now rewrite (bind_throw _ _ _ _ _ (isSameDevice_undefined_l e w)).
Qed.

Lemma replaceAllowedDevice_spec device w :
  replaceAllowedDevice device w =
  match replaceFirst device (allowedDevices w) with
  | Normal (Some r) => (Normal true, set_allowedDevices (fun _ => r) w)
  | Normal None => (Normal false, w)
  | Throw t => (Throw t, w)
  end.
Proof.
  unfold replaceAllowedDevice. unfold bind at 1. unfold gets.
  exact (replaceAllowedDevice_loop_spec device (allowedDevices w) [] w eq_refl).
Qed.

Lemma selectFn_spec device w :
  selectFn device w =
  match replaceFirst device (allowedDevices w) with
  | Normal (Some r) => resolve device (set_allowedDevices (fun _ => r) w)
  | Normal None => resolve device (set_allowedDevices (fun l => l ++ [device]) w)
  | Throw t => (Throw t, w)
  end.
Proof.
  unfold selectFn. unfold bind at 1. rewrite replaceAllowedDevice_spec.
  destruct (replaceFirst device (allowedDevices w)) as [[r|]|t]; reflexivity.
Qed.

Lemma identities_app l1 l2 : identities (l1 ++ l2) = identities l1 ++ identities l2.
Proof.
  induction l1 as [|[d|] l1 IH]; simpl; [reflexivity| |exact IH].
  now rewrite IH.
Qed.

Lemma identities_defined (l : list USBDevice) : identities (map Some l) = map identity l.
Proof. induction l as [|d l IH]; simpl; [reflexivity | now rewrite IH]. Qed.

Lemma replaceFirst_identities device l r :
  replaceFirst device l = Normal (Some r) -> identities r = identities l.
Proof.
  revert r. induction l as [|e l IH]; intros r; simpl; [discriminate|].
  destruct device as [d|]; [|discriminate]. destruct e as [x|]; [|discriminate].
  destruct (sameIdentity d x) eqn:S.
  - intros [= <-]. simpl. apply sameIdentity_spec in S. now rewrite S.
  - destruct (replaceFirst (Some d) l) as [[r'|]|t]; try discriminate.
    intros [= <-]. simpl. now rewrite (IH r' eq_refl).
Qed.

Lemma replaceFirst_no_match d l :
  replaceFirst (Some d) l = Normal None -> identity d ∉ identities l.
Proof.
  induction l as [|e l IH]; simpl; [intros _; apply not_elem_of_nil|].
  destruct e as [x|]; [|discriminate].
  destruct (sameIdentity d x) eqn:S; [discriminate|].
  destruct (replaceFirst (Some d) l) as [[r'|]|t]; try discriminate.
  intros _. apply sameIdentity_false in S.
  rewrite not_elem_of_cons. split; [exact S | now apply IH].
Qed.

Lemma replaceFirst_undefined_no_match l :
  replaceFirst None l = Normal None -> l = [].
Proof. destruct l; [reflexivity | discriminate]. Qed.

(** On a list of device records: no entry of the identity of [d]. *)
Lemma replaceFirst_absent d (l : list USBDevice) :
  identity d ∉ map identity l -> replaceFirst (Some d) (map Some l) = Normal None.
Proof.
  induction l as [|x l IH]; simpl; [reflexivity|].
  rewrite not_elem_of_cons. intros [Hx Hl].
  apply sameIdentity_false in Hx. rewrite Hx. now rewrite IH.
Qed.

(** On a list of device records: the first entry of the identity of [d]. *)
Lemma replaceFirst_present d (l1 l2 : list USBDevice) e :
  identity d ∉ map identity l1 -> identity e = identity d ->
  replaceFirst (Some d) (map Some (l1 ++ e :: l2)) = Normal (Some (map Some (l1 ++ d :: l2))).
Proof.
  intros H1 He. induction l1 as [|x l1 IH]; simpl.
  - symmetry in He. apply sameIdentity_spec in He. now rewrite He.
  - simpl in H1. rewrite not_elem_of_cons in H1. destruct H1 as [Hx Hl].
    apply sameIdentity_false in Hx. rewrite Hx. now rewrite (IH Hl).
Qed.

(** ** What the operations leave alone *)

Lemma preserves_listUSBDevices I e : ignoresLog I -> preserves I (listUSBDevices e).
Proof.
  intros HI. unfold listUSBDevices. apply preserves_bind.
  - apply preserves_modify. intros w H. now apply HI.
  - intros _. destruct e; auto with keeps.
Qed.

Lemma preserves_getDevices_loop I d keys : preserves I (getDevices_loop d keys).
Proof.
  induction keys as [|i keys IH]; simpl; [auto with keeps|].
  unfold allowedDevice_at. apply preserves_bind; [auto with keeps|]. intros entry.
  apply preserves_bind; [auto with keeps|]. intros []; auto with keeps.
Qed.

Lemma preserves_getDevices I e : ignoresLog I -> preserves I (getDevices e).
Proof.
  intros HI. unfold getDevices. apply preserves_bind.
  - now apply preserves_listUSBDevices.
  - intros devices. apply preserves_filterM. intros d. unfold getDevices_callback.
    apply preserves_if; [auto with keeps|].
    apply preserves_bind; [auto with keeps|]. intros n. apply preserves_getDevices_loop.
Qed.

Lemma preserves_settle I s : ignoresPromise I -> preserves I (settle s).
Proof.
  intros HI. apply preserves_modify. intros w H.
  destruct (settled w); [exact H | now apply HI].
Qed.

Lemma preserves_checkFilter I f : ignoresPromise I -> preserves I (checkFilter f).
Proof.
  intros HI. unfold checkFilter, reject.
  repeat (apply preserves_if || apply preserves_bind || intros _);
    auto using preserves_settle with keeps.
Qed.

Lemma preserves_replaceAllowedDevice_loop I device keys :
  ignoresAllowed I -> preserves I (replaceAllowedDevice_loop device keys).
Proof.
  intros HI. induction keys as [|i keys IH]; simpl; [auto with keeps|].
  unfold allowedDevice_at. apply preserves_bind; [auto with keeps|]. intros entry.
  apply preserves_bind; [auto with keeps|]. intros []; [|exact IH].
  apply preserves_bind; [|auto with keeps].
  apply preserves_modify. intros w H. now apply HI.
Qed.

Lemma preserves_replaceAllowedDevice I device :
  ignoresAllowed I -> preserves I (replaceAllowedDevice device).
Proof.
  intros HI. unfold replaceAllowedDevice. apply preserves_bind; [auto with keeps|].
  intros n. now apply preserves_replaceAllowedDevice_loop.
Qed.

Lemma preserves_selectFn I device :
  ignoresAllowed I -> ignoresPromise I -> preserves I (selectFn device).
Proof.
  intros HA HP. unfold selectFn, resolve.
  apply preserves_bind; [now apply preserves_replaceAllowedDevice|]. intros replaced.
  apply preserves_bind; [|intros _; now apply preserves_settle].
  apply preserves_if; [|auto with keeps].
  apply preserves_modify. intros w H. now apply HA.
Qed.

Lemma preserves_requestDevice_listed I options listed :
  ignoresLog I -> ignoresPromise I ->
  (forall device, preserves I (selectFn device)) ->
  preserves I (requestDevice_listed options listed).
Proof.
  intros HL HP HS. unfold requestDevice_listed, reject. cbv zeta.
  apply preserves_if; [now apply preserves_settle|].
  apply preserves_bind; [auto with keeps|]. intros [found|]; [|apply HS].
  apply preserves_bind.
  { unfold callDevicesFound. apply preserves_bind.
    - apply preserves_modify. intros w H. now apply HL.
    - intros _. destruct (found _); auto with keeps. }
  intros device. apply preserves_bind; [|intros _; apply HS].
  apply preserves_if; [now apply preserves_settle | auto with keeps].
Qed.

(** The executor keeps what the selection keeps. *)
Lemma preserves_requestDevice_executor I options e :
  ignoresLog I -> ignoresPromise I ->
  (forall device, preserves I (selectFn device)) ->
  preserves I (requestDevice_executor options e).
Proof.
  intros HL HP HS. unfold requestDevice_executor, reject.
  destruct options as [| |[| |fs]]; try now apply preserves_settle.
  apply preserves_bind.
  { apply preserves_every. intros f. now apply preserves_checkFilter. }
  intros check. apply preserves_if; [auto with keeps|].
  apply preserves_catch; [|intros t; now apply preserves_settle].
  apply preserves_bind; [now apply preserves_listUSBDevices|]. intros listed.
  now apply preserves_requestDevice_listed.
Qed.

Lemma requestDevice_keeps I options e w :
  ignoresLog I -> ignoresPromise I ->
  (forall device, preserves I (selectFn device)) ->
  I w -> I (snd (requestDevice options e w)).
Proof.
  intros HL HP HS H. unfold requestDevice.
  pose proof (preserves_requestDevice_executor I options e HL HP HS
                (set_settled None w) (HP _ _ H)) as K.
  destruct (requestDevice_executor options e (set_settled None w)) as [[u|t] w'];
    simpl in *; [exact K|].
  now apply (preserves_settle I (Rejected t) HP w').
Qed.

(** ** [getDevices] on a list of device records *)

Lemma getDevices_loop_spec d (l : list USBDevice) : forall pre w,
  allowedDevices w = pre ++ map Some l ->
  getDevices_loop d (seq (length pre) (length l)) w = (Normal (existsb (sameIdentity d) l), w).
Proof.
  induction l as [|x l IH]; intros pre w E; [reflexivity|].
  cbn [length seq getDevices_loop existsb map] in *.
  rewrite (bind_normal _ _ _ _ _ (allowedDevice_at_middle _ _ _ _ E)).
  rewrite (bind_normal _ _ _ _ _ (isSameDevice_defined d x w)).
  destruct (sameIdentity d x); [reflexivity|]. simpl.
  specialize (IH (pre ++ [Some x]) w). rewrite length_app, Nat.add_1_r in IH.
  apply IH. now rewrite <- app_assoc.
Qed.

Lemma existsb_sameIdentity d (l : list USBDevice) :
  existsb (sameIdentity d) l = bool_decide (identity d ∈ map identity l).
Proof.
  induction l as [|x l IH]; simpl; [reflexivity|].
  rewrite IH. destruct (sameIdentity d x) eqn:S; simpl.
  - apply sameIdentity_spec in S. symmetry. apply bool_decide_eq_true.
    rewrite S. apply list_elem_of_here.
  - apply sameIdentity_false in S. apply bool_decide_ext.
    rewrite elem_of_cons. tauto.
Qed.

Lemma getDevices_callback_spec d (allowed : list USBDevice) w :
  allowedDevices w = map Some allowed ->
  getDevices_callback d w =
  (Normal (connected d && bool_decide (identity d ∈ map identity allowed)), w).
Proof.
  intros E. unfold getDevices_callback. destruct (connected d); [|reflexivity]. simpl.
  unfold bind at 1. unfold gets. rewrite E, length_map.
  pose proof (getDevices_loop_spec d allowed [] w E) as L. simpl in L.
  rewrite L. now rewrite existsb_sameIdentity.
Qed.

Lemma filterM_pure {A} (p : A -> M bool) (q : A -> bool) l w :
  (forall x, p x w = (Normal (q x), w)) ->
  filterM p l w = (Normal (List.filter q l), w).
Proof.
  intros Hp. induction l as [|x l IH]; [reflexivity|]. simpl.
  rewrite (bind_normal _ _ _ _ _ (Hp x)). rewrite (bind_normal _ _ _ _ _ IH).
  unfold ret. now destruct (q x).
Qed.

(** ** Filter matching *)

(** An interface that satisfies the class family ends the callback with
    [true]: nothing after [if (match) return true] runs. *)
Lemma interface_match_returns_early device filter :
  truthy (Filter.vendorId filter) && (Filter.vendorId filter !==n vendorId device) = false ->
  truthy (Filter.productId filter) && (Filter.productId filter !==n productId device) = false ->
  truthy (Filter.classCode filter) = true ->
  existsb (interfaceMatches filter) (interfaces (configuration device)) = true ->
  filterMatches device filter = true.
Proof.
  intros Hv Hp Hc Hi. unfold filterMatches. now rewrite Hv, Hp, Hc, Hi.
Qed.

(** The sibling path: when no interface satisfies the class family, the
    callback goes on to the serial number, and a failing one rejects. *)
Lemma device_level_match_checks_serial device filter :
  existsb (interfaceMatches filter) (interfaces (configuration device)) = false ->
  serialFails filter device = true ->
  filterMatches device filter = false.
Proof.
  intros Hi Hs. unfold filterMatches, serialFails in *. rewrite Hi, Hs, andb_false_r.
  repeat match goal with |- context [if ?b then _ else _] => destruct b end; reflexivity.
Qed.

(** C1. A filter with a class code and a serial number criterion, on a
    device one of whose interfaces satisfies the class family: the claim is
    that the filter matches only if the serial number passes as well. On
    [{classCode: 3, serialnumber: "B2"}] and a device of serial number
    ["A1"] with an HID interface the serial number criterion fails, an
    interface satisfies the class family, and [filterDevice] answers
    [true]. *)
Theorem interface_match_skips_serial :
  truthy (Filter.classCode hidFilterOtherSerial) = true /\
  existsb (interfaceMatches hidFilterOtherSerial) (interfaces (configuration hidDevice)) = true /\
  serialFails hidFilterOtherSerial hidDevice = true /\
  filterDevice {| filters := [hidFilterOtherSerial] |} hidDevice = true.
Proof. repeat split; reflexivity. Qed.

(** ** Validation of the request *)

Lemma checkFilter_complete f w :
  hierarchyComplete f = true -> checkFilter f w = (Normal true, w).
Proof.
  unfold hierarchyComplete, protocolWithoutSubclass, subclassWithoutClass, checkFilter.
  rewrite andb_true_iff, !negb_true_iff. now intros [-> ->].
Qed.

Lemma checkFilter_subclass_required f w :
  protocolWithoutSubclass f = true ->
  checkFilter f w =
  (Normal false, snd (reject (TypeError "requestDevice error: subclass code is required") w)).
Proof. unfold protocolWithoutSubclass, checkFilter. now intros ->. Qed.

Lemma checkFilter_class_required f w :
  protocolWithoutSubclass f = false -> subclassWithoutClass f = true ->
  checkFilter f w =
  (Normal false, snd (reject (TypeError "requestDevice error: class code is required") w)).
Proof. unfold protocolWithoutSubclass, subclassWithoutClass, checkFilter. now intros -> ->. Qed.

Lemma every_checkFilter_complete fs w :
  forallb hierarchyComplete fs = true -> every checkFilter fs w = (Normal true, w).
Proof.
  induction fs as [|f fs IH]; simpl; [reflexivity|].
  rewrite andb_true_iff. intros [Hf Hfs].
  rewrite (bind_normal _ _ _ _ _ (checkFilter_complete f w Hf)). now apply IH.
Qed.

(** [every] stops at the first filter its callback refuses. *)
Lemma every_checkFilter_stops pre f post w w' :
  forallb hierarchyComplete pre = true ->
  checkFilter f w = (Normal false, w') ->
  every checkFilter (pre ++ f :: post) w = (Normal false, w').
Proof.
  intros Hpre Hf. induction pre as [|g pre IH]; simpl in *.
  - now rewrite (bind_normal _ _ _ _ _ Hf).
  - apply andb_true_iff in Hpre as [Hg Hpre].
    rewrite (bind_normal _ _ _ _ _ (checkFilter_complete g w Hg)). now apply IH.
Qed.

Lemma requestDevice_invalid pre f post enumeration w message :
  forallb hierarchyComplete pre = true ->
  checkFilter f (set_settled None w) =
    (Normal false, snd (reject (TypeError message) (set_settled None w))) ->
  requestDevice (OptionsObject (FiltersArray (pre ++ f :: post))) enumeration w =
  (Some (Rejected (TypeError message)), set_settled (Some (Rejected (TypeError message))) w).
Proof.
  intros Hpre Hf. unfold requestDevice, requestDevice_executor.
  rewrite (bind_normal _ _ _ _ _ (every_checkFilter_stops pre f post _ _ Hpre Hf)).
  reflexivity.
Qed.

(** C3. When the filters before [f] are complete and [f] sets a protocol
    code without a subclass code, [requestDevice] rejects with the type
    error "subclass code is required"; when [f] instead sets a subclass code
    without a class code, with "class code is required". The outcome is the
    same whatever filters follow [f], and the trace of calls is the one
    before the request: the adapter has not been asked to enumerate. A
    member is set when it is truthy (present and not 0). *)
Theorem requestDevice_first_invalid_filter pre f post enumeration w :
  forallb hierarchyComplete pre = true ->
  (protocolWithoutSubclass f = true ->
   let subclassRequired := TypeError "requestDevice error: subclass code is required" in
   fst (requestDevice (OptionsObject (FiltersArray (pre ++ f :: post))) enumeration w)
     = Some (Rejected subclassRequired)) /\
  (protocolWithoutSubclass f = false -> subclassWithoutClass f = true ->
   let classRequired := TypeError "requestDevice error: class code is required" in
   fst (requestDevice (OptionsObject (FiltersArray (pre ++ f :: post))) enumeration w)
     = Some (Rejected classRequired)) /\
  (hierarchyComplete f = false ->
   requestDevice (OptionsObject (FiltersArray (pre ++ f :: post))) enumeration w
     = requestDevice (OptionsObject (FiltersArray (pre ++ [f]))) enumeration w /\
   log (snd (requestDevice (OptionsObject (FiltersArray (pre ++ f :: post))) enumeration w))
     = log w).
Proof.
  intros Hpre. split; [|split].
  - intros Hf. cbv zeta.
    now rewrite (requestDevice_invalid pre f post enumeration w _ Hpre
                   (checkFilter_subclass_required f _ Hf)).
  - intros Hp Hf. cbv zeta.
    now rewrite (requestDevice_invalid pre f post enumeration w _ Hpre
                   (checkFilter_class_required f _ Hp Hf)).
  - intros Hf. unfold hierarchyComplete in Hf.
    destruct (protocolWithoutSubclass f) eqn:Hp.
    + rewrite !(requestDevice_invalid pre f _ enumeration w _ Hpre
                  (checkFilter_subclass_required f _ Hp)). now split.
    + simpl in Hf. apply negb_false_iff in Hf.
      rewrite !(requestDevice_invalid pre f _ enumeration w _ Hpre
                  (checkFilter_class_required f _ Hp Hf)). now split.
Qed.

Lemma requestDevice_first_invalid_filter_witness :
  let request fs :=
    requestDevice (OptionsObject (FiltersArray fs)) (Normal [hidDevice]) (blank (fun _ => [])) in
  fst (request ([classOnly] ++ protocolOnly :: [subclassOnly]))
    = Some (Rejected (TypeError "requestDevice error: subclass code is required")) /\
  fst (request ([classOnly] ++ subclassOnly :: [protocolOnly]))
    = Some (Rejected (TypeError "requestDevice error: class code is required")) /\
  request ([classOnly] ++ protocolOnly :: [subclassOnly]) = request ([classOnly] ++ [protocolOnly]) /\
  log (snd (request ([classOnly] ++ protocolOnly :: [subclassOnly]))) = [].
Proof.
  cbv zeta. split; [|split].
  - apply (requestDevice_first_invalid_filter [classOnly] protocolOnly [subclassOnly]
             (Normal [hidDevice]) (blank (fun _ => []))); reflexivity.
  - apply (requestDevice_first_invalid_filter [classOnly] subclassOnly [protocolOnly]
             (Normal [hidDevice]) (blank (fun _ => []))); reflexivity.
  - apply (requestDevice_first_invalid_filter [classOnly] protocolOnly [subclassOnly]
             (Normal [hidDevice]) (blank (fun _ => []))); reflexivity.
Defined.

Lemma filter_none {A} (q : A -> bool) l :
  (forall x, q x = false) -> List.filter q l = [].
Proof.
  intros Hq. induction l as [|x l IH]; simpl; [reflexivity|]. now rewrite Hq.
Qed.

(** Past the validation, with an enumeration that succeeds: the adapter is
    asked, and the callback of [then] runs under the [catch]. *)
Lemma requestDevice_executor_listed fs listed w :
  forallb hierarchyComplete fs = true ->
  requestDevice_executor (OptionsObject (FiltersArray fs)) (Normal listed) w =
  catch (requestDevice_listed {| filters := fs |} listed)
        (fun error => reject (RequestError error)) (record ListUSBDevices w).
Proof.
  intros Hfs. unfold requestDevice_executor.
  rewrite (bind_normal _ _ _ _ _ (every_checkFilter_complete fs w Hfs)).
  reflexivity.
Qed.

(** C4. With an empty sequence of filters the validation passes, no device
    matches, and whatever devices the adapter lists the request is rejected
    with the error "no devices found"; the adapter has been asked once and
    the allowed devices are as before. *)
Theorem requestDevice_empty_filters w devices :
  let result := requestDevice (OptionsObject (FiltersArray [])) (Normal devices) w in
  every checkFilter [] w = (Normal true, w) /\
  (forall device, filterDevice {| filters := [] |} device = false) /\
  fst result = Some (Rejected (Error "requestDevice error: no devices found")) /\
  log (snd result) = log w ++ [ListUSBDevices] /\
  allowedDevices (snd result) = allowedDevices w.
Proof.
  cbv zeta. split; [reflexivity|]. split; [reflexivity|].
  unfold requestDevice. rewrite requestDevice_executor_listed by reflexivity.
  unfold catch, requestDevice_listed. cbv zeta.
  rewrite (filter_none (filterDevice {| filters := [] |}) devices (fun _ => eq_refl)).
  repeat split; reflexivity.
Qed.

(** ** Zero as a criterion *)

Lemma truthy_dropZero member : truthy (dropZero member) = truthy member.
Proof. destruct member as [[| |]|]; reflexivity. Qed.

Lemma criterion_dropZero member value :
  truthy (dropZero member) && (dropZero member !==n value)
  = truthy member && (member !==n value).
Proof. destruct member as [[| |]|]; reflexivity. Qed.

Lemma interfaceMatches_dropZeros filter iface :
  interfaceMatches (dropZeros filter) iface = interfaceMatches filter iface.
Proof. unfold interfaceMatches. simpl. now rewrite !criterion_dropZero. Qed.

Lemma existsb_ext' {A} (p q : A -> bool) l :
  (forall x, p x = q x) -> existsb p l = existsb q l.
Proof. intros E. induction l as [|x l IH]; simpl; [reflexivity | now rewrite E, IH]. Qed.

Lemma filter_ext' {A} (p q : A -> bool) l :
  (forall x, p x = q x) -> List.filter p l = List.filter q l.
Proof. intros E. induction l as [|x l IH]; simpl; [reflexivity | now rewrite E, IH]. Qed.

Lemma filterMatches_dropZeros device filter :
  filterMatches device (dropZeros filter) = filterMatches device filter.
Proof.
  unfold filterMatches. simpl. rewrite !criterion_dropZero, truthy_dropZero.
  now rewrite (existsb_ext' _ _ _ (interfaceMatches_dropZeros filter)).
Qed.

Lemma filterDevice_dropZeros fs device :
  filterDevice {| filters := map dropZeros fs |} device = filterDevice {| filters := fs |} device.
Proof.
  unfold filterDevice. simpl. induction fs as [|f fs IH]; simpl; [reflexivity|].
  now rewrite filterMatches_dropZeros, IH.
Qed.

Lemma checkFilter_dropZeros filter w :
  checkFilter (dropZeros filter) w = checkFilter filter w.
Proof. unfold checkFilter. simpl. now rewrite !truthy_dropZero. Qed.

Lemma every_checkFilter_dropZeros fs w :
  every checkFilter (map dropZeros fs) w = every checkFilter fs w.
Proof.
  revert w. induction fs as [|f fs IH]; intros w; simpl; [reflexivity|].
  unfold bind. rewrite checkFilter_dropZeros.
  destruct (checkFilter f w) as [[[]|t] w']; auto.
Qed.

Lemma requestDevice_executor_dropZeros fs enumeration w :
  requestDevice_executor (OptionsObject (FiltersArray (map dropZeros fs))) enumeration w
  = requestDevice_executor (OptionsObject (FiltersArray fs)) enumeration w.
Proof.
  unfold requestDevice_executor.
  unfold bind at 1 3. rewrite every_checkFilter_dropZeros.
  destruct (every checkFilter fs w) as [[[]|t] w']; try reflexivity.
  cbn [negb]. apply catch_ext, bind_ext. intros listed w''.
  unfold requestDevice_listed. cbv zeta.
  now rewrite (filter_ext' _ _ listed (filterDevice_dropZeros fs)).
Qed.

Lemma requestDevice_dropZeros fs enumeration w :
  requestDevice (OptionsObject (FiltersArray (map dropZeros fs))) enumeration w
  = requestDevice (OptionsObject (FiltersArray fs)) enumeration w.
Proof. unfold requestDevice. now rewrite requestDevice_executor_dropZeros. Qed.

(** C9. A numeric member of a filter that is 0 behaves as an absent one:
    matching, the validation of the hierarchy and the whole request give the
    same result on a filter and on the filter with its zeros taken out; a
    filter whose numeric members are all 0 or absent and that has no serial
    number criterion matches every device; and a filter with a protocol code
    [p] other than 0 and subclass code 0 is refused with "subclass code is
    required". *)
Theorem zero_member_is_absent :
  (forall device filter,
     filterMatches device filter = filterMatches device (dropZeros filter)) /\
  (forall device filter,
     dropZeros filter = Filter.empty -> filterMatches device filter = true) /\
  (forall filter w, checkFilter filter w = checkFilter (dropZeros filter) w) /\
  (forall fs enumeration w,
     requestDevice (OptionsObject (FiltersArray fs)) enumeration w
     = requestDevice (OptionsObject (FiltersArray (map dropZeros fs))) enumeration w) /\
  (forall filter p enumeration w,
     Filter.protocolCode filter = Some p -> p <> 0 ->
     Filter.subclassCode filter = Some 0 ->
     fst (requestDevice (OptionsObject (FiltersArray [filter])) enumeration w)
     = Some (Rejected (TypeError "requestDevice error: subclass code is required"))).
Proof.
  split; [|split; [|split; [|split]]].
  - intros. now rewrite filterMatches_dropZeros.
  - intros device filter E. rewrite <- filterMatches_dropZeros, E. reflexivity.
  - intros. now rewrite checkFilter_dropZeros.
  - intros. now rewrite requestDevice_dropZeros.
  - intros filter p enumeration w Hp Hp0 Hs.
    assert (protocolWithoutSubclass filter = true) as Hf.
    { unfold protocolWithoutSubclass. rewrite Hp, Hs.
      cbv [truthy truthy_optional truthy_number].
      apply Z.eqb_neq in Hp0. now rewrite Hp0. }
    change [filter] with ([] ++ filter :: []).
    now rewrite (requestDevice_invalid [] filter [] enumeration w _ eq_refl
                   (checkFilter_subclass_required filter _ Hf)).
Qed.

Lemma zero_member_is_absent_witness :
  filterMatches hidDevice allZeros = true /\
  fst (requestDevice (OptionsObject (FiltersArray [protocolWithSubclassZero]))
         (Normal [hidDevice]) (blank (fun _ => [])))
  = Some (Rejected (TypeError "requestDevice error: subclass code is required")).
Proof.
  destruct zero_member_is_absent as (_ & Hzeros & _ & _ & Hsubclass). split.
  - apply Hzeros. reflexivity.
  - apply (Hsubclass protocolWithSubclassZero 5); [reflexivity | lia | reflexivity].
Defined.

(** ** Device discovery *)

(** C5. On a list of allowed device records and an enumeration of the
    adapter, [getDevices] returns the enumerated devices that are connected
    and whose identity triple is that of some allowed entry, in the order of
    the enumeration; and whatever the enumeration and the state, it leaves
    the allowed devices as they were. *)
Theorem getDevices_connected_allowed w (allowed devices : list USBDevice) :
  allowedDevices w = map Some allowed ->
  fst (getDevices (Normal devices) w)
  = Normal (List.filter
              (fun device => connected device
                             && bool_decide (identity device ∈ map identity allowed))
              devices)
  /\ forall enumeration w', allowedDevices (snd (getDevices enumeration w')) = allowedDevices w'.
Proof.
  intros E. split.
  - unfold getDevices, listUSBDevices.
    unfold bind at 1. unfold bind at 1. unfold modify, ret.
    rewrite (filterM_pure getDevices_callback
               (fun device => connected device
                              && bool_decide (identity device ∈ map identity allowed))).
    + reflexivity.
    + intros d. now apply getDevices_callback_spec.
  - intros enumeration w'.
    now apply (preserves_getDevices (fun v => allowedDevices v = allowedDevices w')).
Qed.

Lemma getDevices_connected_allowed_witness :
  fst (getDevices (Normal [otherDevice; hidDevice; hidDeviceUnplugged])
         (withAllowed [Some hidDeviceUnplugged]))
  = Normal [hidDevice].
Proof.
  apply (getDevices_connected_allowed (withAllowed [Some hidDeviceUnplugged])
           [hidDeviceUnplugged] [otherDevice; hidDevice; hidDeviceUnplugged]).
  reflexivity.
Defined.

(** ** The allowed devices stay unique by identity *)

Lemma preserves_emit I event payload : ignoresLog I -> preserves I (emit event payload).
Proof.
  intros HL. unfold emit. apply preserves_bind; [auto with keeps|]. intros receivers.
  apply preserves_modify. intros w H. now apply HL.
Qed.

Lemma preserves_deviceConnectCallback I device :
  ignoresLog I -> preserves I (replaceAllowedDevice (Some device)) ->
  preserves I (deviceConnectCallback device).
Proof.
  intros HL HR. unfold deviceConnectCallback. apply preserves_bind; [exact HR|].
  intros []; [now apply preserves_emit | auto with keeps].
Qed.

Lemma preserves_deviceDisconnectCallback I handle :
  ignoresLog I -> preserves I (deviceDisconnectCallback handle).
Proof.
  intros HL. unfold deviceDisconnectCallback.
  apply preserves_bind; [auto with keeps|]. intros entries.
  apply preserves_bind.
  { apply preserves_findM. intros entry. auto with keeps. }
  intros [[device|]|]; auto using preserves_emit with keeps.
Qed.

Lemma preserves_notify I n :
  ignoresLog I -> (forall device, preserves I (replaceAllowedDevice (Some device))) ->
  preserves I (notify n).
Proof.
  intros HL HR. unfold notify. apply preserves_bind; [auto with keeps|]. intros callbacks.
  apply preserves_forEach. intros callback. unfold runAdapterCallback.
  destruct callback, n; auto using preserves_deviceConnectCallback,
    preserves_deviceDisconnectCallback with keeps.
Qed.

Lemma preserves_adapter_addListener I event callback :
  ignoresListeners I -> preserves I (adapter_addListener event callback).
Proof. intros [_ HA]. apply preserves_modify. intros w H. now apply HA. Qed.

Lemma preserves_adapter_removeListener I event callback :
  ignoresListeners I -> preserves I (adapter_removeListener event callback).
Proof. intros [_ HA]. apply preserves_modify. intros w H. now apply HA. Qed.

Lemma preserves_runListener I event listener :
  ignoresListeners I -> preserves I (runListener event listener).
Proof.
  intros HI. destruct listener; simpl; [| |auto with keeps].
  - unfold onNewListener, listenerCount. apply preserves_bind; [auto with keeps|].
    intros count. apply preserves_if; [auto with keeps|].
    destruct event; auto using preserves_adapter_addListener with keeps.
  - unfold onRemoveListener, listenerCount. apply preserves_bind; [auto with keeps|].
    intros count. apply preserves_if; [auto with keeps|].
    destruct event; auto using preserves_adapter_removeListener with keeps.
Qed.

Lemma preserves_announce I name event :
  ignoresListeners I -> preserves I (announce name event).
Proof.
  intros HI. unfold announce. apply preserves_bind; [auto with keeps|]. intros receivers.
  apply preserves_forEach. intros listener. now apply preserves_runListener.
Qed.

Lemma preserves_on I event listener : ignoresListeners I -> preserves I (on event listener).
Proof.
  intros HI. unfold on. apply preserves_bind; [now apply preserves_announce|].
  intros _. apply preserves_modify. intros w H. now apply (proj1 HI).
Qed.

Lemma preserves_off I event listener : ignoresListeners I -> preserves I (off event listener).
Proof.
  intros HI. unfold off. apply preserves_bind; [auto with keeps|]. intros registered.
  destruct (removeLast listener registered); [|auto with keeps].
  apply preserves_bind; [|intros _; now apply preserves_announce].
  apply preserves_modify. intros w H. now apply (proj1 HI).
Qed.

Lemma allowedUnique_replaceAllowedDevice device :
  preserves allowedUnique (replaceAllowedDevice device).
Proof.
  intros w H. rewrite replaceAllowedDevice_spec.
  destruct (replaceFirst device (allowedDevices w)) as [[r|]|t] eqn:E; simpl; try exact H.
  unfold allowedUnique, uniqueIdentities in *. simpl.
  now rewrite (replaceFirst_identities _ _ _ E).
Qed.

Lemma allowedUnique_selectFn device : preserves allowedUnique (selectFn device).
Proof.
  intros w H. rewrite selectFn_spec.
  destruct (replaceFirst device (allowedDevices w)) as [[r|]|t] eqn:E; [| |exact H].
  - apply (preserves_settle allowedUnique (Resolved device)); [now intros ? ?|].
    unfold allowedUnique, uniqueIdentities in *. simpl.
    now rewrite (replaceFirst_identities _ _ _ E).
  - apply (preserves_settle allowedUnique (Resolved device)); [now intros ? ?|].
    unfold allowedUnique, uniqueIdentities in *. simpl.
    rewrite identities_app. destruct device as [d|]; simpl.
    + apply NoDup_app. split; [exact H|]. split; [|apply NoDup_singleton].
      intros x Hx ->%list_elem_of_singleton.
      now apply (replaceFirst_no_match _ _ E).
    + now rewrite app_nil_r.
Qed.

Lemma step_allowedUnique w op : allowedUnique w -> allowedUnique (step w op).
Proof.
  intros H. destruct op as [e|options e|event id|event id|n]; simpl.
  - now apply (preserves_getDevices allowedUnique e).
  - apply requestDevice_keeps; try assumption; try now intros ? ?.
    apply allowedUnique_selectFn.
  - apply (preserves_on allowedUnique); [split; now intros ? ?|exact H].
  - apply (preserves_off allowedUnique); [split; now intros ? ?|exact H].
  - apply (preserves_notify allowedUnique); try assumption; [now intros ? ?|].
    intros device. apply allowedUnique_replaceAllowedDevice.
Qed.

Lemma run_allowedUnique ops : forall w, allowedUnique w -> allowedUnique (run ops w).
Proof.
  induction ops as [|op ops IH]; intros w H; simpl; [exact H|].
  apply IH. now apply step_allowedUnique.
Qed.

Lemma new_USB_allowedDevices options foreign : allowedDevices (new_USB options foreign) = [].
Proof. destruct options; reflexivity. Qed.

(** An entry of the identity of [d], when there is one, can be taken to be
    the first. *)
Lemma first_of_identity d (l : list USBDevice) :
  identity d ∈ map identity l ->
  exists l1 e l2, l = l1 ++ e :: l2 /\ identity e = identity d /\ identity d ∉ map identity l1.
Proof.
  induction l as [|x l IH]; simpl; [now intros ?%elem_of_nil|].
  destruct (decide (identity x = identity d)) as [Hx|Hx].
  - intros _. exists [], x, l. repeat split; [exact Hx | apply not_elem_of_nil].
  - intros [?|Hl]%elem_of_cons; [congruence|].
    destruct (IH Hl) as (l1 & e & l2 & -> & He & H1).
    exists (x :: l1), e, l2. repeat split; [exact He|].
    simpl. rewrite not_elem_of_cons. split; [congruence | exact H1].
Qed.

Lemma settle_allowedDevices s w : allowedDevices (snd (settle s w)) = allowedDevices w.
Proof. unfold settle, modify. simpl. now destruct (settled w). Qed.

(** C6. The allowed devices never hold two entries of one identity triple:
    the list is unique in every state the operations reach from a new
    instance, each operation keeps it unique, and a selection puts the
    chosen record in the place of the entry of its identity when there is
    one and at the end of the list only when there is none. *)
Theorem allowedDevices_unique :
  (forall options foreign ops,
     uniqueIdentities (allowedDevices (run ops (new_USB options foreign)))) /\
  (forall w op,
     uniqueIdentities (allowedDevices w) -> uniqueIdentities (allowedDevices (step w op))) /\
  (forall w d (allowed : list USBDevice),
     allowedDevices w = map Some allowed ->
     (identity d ∉ map identity allowed ->
      allowedDevices (snd (selectFn (Some d) w)) = map Some (allowed ++ [d])) /\
     (forall l1 e l2,
        allowed = l1 ++ e :: l2 -> identity e = identity d ->
        identity d ∉ map identity l1 ->
        allowedDevices (snd (selectFn (Some d) w)) = map Some (l1 ++ d :: l2))).
Proof.
  split; [|split].
  - intros options foreign ops. apply run_allowedUnique.
    unfold allowedUnique. rewrite new_USB_allowedDevices. apply NoDup_nil_2.
  - intros w op. apply step_allowedUnique.
  - intros w d allowed E. split.
    + intros Hd. rewrite selectFn_spec, E, (replaceFirst_absent d allowed Hd).
      unfold resolve. rewrite settle_allowedDevices. simpl. now rewrite E, map_app.
    + intros l1 e l2 -> He H1. rewrite selectFn_spec, E, (replaceFirst_present d l1 l2 e H1 He).
      unfold resolve. now rewrite settle_allowedDevices.
Qed.

Lemma allowedDevices_unique_witness :
  uniqueIdentities
    (allowedDevices
       (step (withAllowed [Some hidDeviceUnplugged])
          (RequestDevice (OptionsObject (FiltersArray [Filter.empty])) (Normal [hidDevice])))) /\
  allowedDevices (snd (selectFn (Some otherDevice) (withAllowed [Some hidDevice])))
  = [Some hidDevice; Some otherDevice] /\
  allowedDevices (snd (selectFn (Some hidDevice) (withAllowed [Some hidDeviceUnplugged])))
  = [Some hidDevice].
Proof.
  destruct allowedDevices_unique as (_ & Hstep & Hselect). split; [|split].
  - apply Hstep. unfold uniqueIdentities. simpl. apply NoDup_singleton.
  - apply (Hselect (withAllowed [Some hidDevice]) otherDevice [hidDevice] eq_refl).
    simpl. rewrite not_elem_of_cons. split; [discriminate | apply not_elem_of_nil].
  - apply (Hselect (withAllowed [Some hidDeviceUnplugged]) hidDevice [hidDeviceUnplugged] eq_refl)
      with (l1 := []) (e := hidDeviceUnplugged) (l2 := []);
      [reflexivity | reflexivity | apply not_elem_of_nil].
Defined.

(** ** The relay of connect notifications *)

(** C8. A connect notification of the adapter, on a list of allowed device
    records: when the identity triple of the device is that of an allowed
    entry, the entry is replaced in place by the new record and a connect
    event with the new record goes to the listeners of the instance; when
    no allowed entry has that identity, nothing is emitted and the state,
    the allowed devices with it, is as before. *)
Theorem connect_notification_relayed w device (allowed : list USBDevice) :
  allowedDevices w = map Some allowed ->
  (identity device ∈ map identity allowed ->
   exists l1 e l2,
     allowed = l1 ++ e :: l2 /\ identity e = identity device /\
     (identity device ∉ map identity l1) /\
     allowedDevices (snd (deviceConnectCallback device w)) = map Some (l1 ++ device :: l2) /\
     log (snd (deviceConnectCallback device w))
     = log w ++ [Emit connect device (listeners w connect)]) /\
  (identity device ∉ map identity allowed ->
   deviceConnectCallback device w = (Normal tt, w)).
Proof.
  intros E. unfold deviceConnectCallback. split.
  - intros Hin. destruct (first_of_identity device allowed Hin) as (l1 & e & l2 & -> & He & H1).
    exists l1, e, l2. repeat split; try assumption.
    all: unfold bind at 1; rewrite replaceAllowedDevice_spec, E,
           (replaceFirst_present device l1 l2 e H1 He); reflexivity.
  - intros Hout. unfold bind at 1.
    now rewrite replaceAllowedDevice_spec, E, (replaceFirst_absent device allowed Hout).
Qed.

Lemma connect_notification_relayed_witness :
  (allowedDevices (snd (deviceConnectCallback hidDevice
                          (withAllowed [Some otherDevice; Some hidDeviceUnplugged])))
   = [Some otherDevice; Some hidDevice] /\
   log (snd (deviceConnectCallback hidDevice
               (withAllowed [Some otherDevice; Some hidDeviceUnplugged])))
   = [Emit connect hidDevice []]) /\
  deviceConnectCallback hidDevice (withAllowed [Some otherDevice])
  = (Normal tt, withAllowed [Some otherDevice]).
Proof.
  split.
  - destruct (connect_notification_relayed
                (withAllowed [Some otherDevice; Some hidDeviceUnplugged]) hidDevice
                [otherDevice; hidDeviceUnplugged] eq_refl) as [Hin _].
    destruct Hin as (l1 & e & l2 & _ & _ & _ & Hallowed & Hlog).
    + simpl. apply list_elem_of_further, list_elem_of_here.
    + split; [reflexivity | exact Hlog].
  - apply (connect_notification_relayed (withAllowed [Some otherDevice]) hidDevice
             [otherDevice] eq_refl).
    simpl. rewrite not_elem_of_cons. split; [discriminate | apply not_elem_of_nil].
Defined.

(** ** Selection through the callback *)

Lemma requestDevice_listed_selected fs listed found device w :
  devicesFound w = Some found ->
  List.filter (filterDevice {| filters := fs |}) listed <> [] ->
  found (List.filter (filterDevice {| filters := fs |}) listed) = Normal device ->
  requestDevice_listed {| filters := fs |} listed w =
  ((if negb (truthy device) then reject (Error "selected device not found") else ret tt)
     >> selectFn device)
    (record (DevicesFound (List.filter (filterDevice {| filters := fs |}) listed)) w).
Proof.
  intros Hcb Hne Hfound. unfold requestDevice_listed. cbv zeta.
  destruct (List.filter (filterDevice {| filters := fs |}) listed) as [|c cs] eqn:Ef;
    [congruence|].
  cbn [length Nat.eqb]. unfold bind at 1. unfold gets at 1. rewrite Hcb.
  unfold bind at 1. unfold callDevicesFound. unfold bind at 1. unfold modify at 1.
  now rewrite Hfound.
Qed.

Lemma selected_defined d w :
  ((if negb (truthy (Some d)) then reject (Error "selected device not found") else ret tt)
     >> selectFn (Some d)) w
  = selectFn (Some d) w.
Proof. reflexivity. Qed.

Lemma selected_undefined w :
  ((if negb (truthy (@None USBDevice))
    then reject (Error "selected device not found") else ret tt)
     >> selectFn None) w
  = selectFn None (snd (reject (Error "selected device not found") w)).
Proof. reflexivity. Qed.

(** C10. With a selection callback configured, a request that passes the
    validation and finds at least one matching device, and a callback that
    answers with a device record: the request resolves with that record and
    the record is put among the allowed devices, in the place of the entry
    of its identity or at the end, whether or not the record is one of the
    candidates the callback was given or matches a filter. *)
Theorem requestDevice_trusts_callback w fs listed found d (allowed : list USBDevice) :
  forallb hierarchyComplete fs = true ->
  devicesFound w = Some found ->
  List.filter (filterDevice {| filters := fs |}) listed <> [] ->
  found (List.filter (filterDevice {| filters := fs |}) listed) = Normal (Some d) ->
  allowedDevices w = map Some allowed ->
  let result := requestDevice (OptionsObject (FiltersArray fs)) (Normal listed) w in
  fst result = Some (Resolved (Some d)) /\
  (identity d ∉ map identity allowed ->
   allowedDevices (snd result) = map Some (allowed ++ [d])) /\
  (identity d ∈ map identity allowed ->
   exists l1 e l2,
     allowed = l1 ++ e :: l2 /\ identity e = identity d /\
     (identity d ∉ map identity l1) /\
     allowedDevices (snd result) = map Some (l1 ++ d :: l2)).
Proof.
  intros Hfs Hcb Hne Hfound E. cbv zeta.
  unfold requestDevice. rewrite requestDevice_executor_listed by exact Hfs.
  unfold catch. rewrite (requestDevice_listed_selected fs listed found (Some d)) by assumption.
  rewrite selected_defined, selectFn_spec.
  cbn [allowedDevices record set_settled]. rewrite E.
  destruct (decide (identity d ∈ map identity allowed)) as [Hin|Hout].
  - destruct (first_of_identity d allowed Hin) as (l1 & e & l2 & -> & He & H1).
    rewrite (replaceFirst_present d l1 l2 e H1 He).
    split; [reflexivity|]. split; [intros Hout; destruct (Hout Hin)|].
    intros _. exists l1, e, l2. repeat split; assumption || reflexivity.
  - rewrite (replaceFirst_absent d allowed Hout).
    split; [reflexivity|]. split; [|intros Hin; destruct (Hout Hin)].
    intros _. cbn. now rewrite E, map_app.
Qed.

Lemma requestDevice_trusts_callback_witness :
  let w := new_USB (Some {| options_devicesFound := Some alwaysOther |}) (fun _ => []) in
  let result := requestDevice (OptionsObject (FiltersArray [classOnly])) (Normal [hidDevice]) w in
  filterDevice {| filters := [classOnly] |} otherDevice = false /\
  List.filter (filterDevice {| filters := [classOnly] |}) [hidDevice] = [hidDevice] /\
  fst result = Some (Resolved (Some otherDevice)) /\
  allowedDevices (snd result) = [Some otherDevice].
Proof.
  cbv zeta. split; [reflexivity|]. split; [reflexivity|].
  destruct (requestDevice_trusts_callback
              (new_USB (Some {| options_devicesFound := Some alwaysOther |}) (fun _ => []))
              [classOnly] [hidDevice] alwaysOther otherDevice [])
    as (Hresolved & Happended & _);
    [reflexivity | reflexivity | discriminate | reflexivity | reflexivity |].
  split; [exact Hresolved|]. apply Happended. apply not_elem_of_nil.
Defined.

(** ** Requests that fail *)

(** C2. A request that fails is claimed to leave the allowed devices as they
    were. On a new instance whose selection callback answers with no device,
    a request with the filter [{}] and one device listed is rejected with
    "selected device not found", and the allowed devices, empty before, hold
    one entry after it: [undefined]. *)
Theorem failed_selection_appends_undefined :
  let w := new_USB (Some {| options_devicesFound := Some nothingSelected |}) (fun _ => []) in
  let result := requestDevice (OptionsObject (FiltersArray [Filter.empty])) (Normal [hidDevice]) w in
  allowedDevices w = [] /\
  fst result = Some (Rejected (Error "selected device not found")) /\
  allowedDevices (snd result) = [None].
Proof. repeat split; reflexivity. Qed.

(** What the entry [undefined] does afterwards: discovery of a connected
    device is rejected, and so is every later selection. *)
Example undefined_entry_breaks_discovery :
  fst (getDevices (Normal [hidDevice]) (withAllowed [None]))
  = Throw (PropertyOfUndefined "productId") /\
  requestDevice (OptionsObject (FiltersArray [Filter.empty])) (Normal [hidDevice])
    (withAllowed [None])
  = (Some (Rejected (RequestError (PropertyOfUndefined "productId"))),
     record ListUSBDevices
       (set_settled (Some (Rejected (RequestError (PropertyOfUndefined "productId"))))
          (withAllowed [None]))).
Proof. split; reflexivity. Qed.

Lemma checkFilter_true f w w' : checkFilter f w = (Normal true, w') -> w' = w.
Proof.
  unfold checkFilter.
  repeat match goal with |- context [if ?b then _ else _] => destruct b end;
    unfold bind, reject, settle, modify, ret; congruence.
Qed.

Lemma every_checkFilter_true fs : forall w w',
  every checkFilter fs w = (Normal true, w') -> w' = w.
Proof.
  induction fs as [|f fs IH]; intros w w'; simpl; [unfold ret; congruence|].
  unfold bind. destruct (checkFilter f w) as [[[]|t] w1] eqn:Hf; try (unfold ret; congruence).
  apply checkFilter_true in Hf as ->. apply IH.
Qed.

Lemma every_checkFilter_allowedDevices fs w :
  allowedDevices (snd (every checkFilter fs w)) = allowedDevices w.
Proof.
  apply (preserves_every (fun v => allowedDevices v = allowedDevices w)); [|reflexivity].
  intros f. apply preserves_checkFilter. now intros ? ?.
Qed.

(** Apart from that case, a request that is rejected leaves the allowed
    devices as they were. *)
Lemma rejected_request_allowedDevices options enumeration w reason :
  fst (requestDevice options enumeration w) = Some (Rejected reason) ->
  allowedDevices (snd (requestDevice options enumeration w)) = allowedDevices w \/
  (reason = Error "selected device not found" /\ allowedDevices w = [] /\
   allowedDevices (snd (requestDevice options enumeration w)) = [None]).
Proof.
  unfold requestDevice.
  destruct options as [| |[| |fs]]; try (intros _; left; reflexivity).
  remember (requestDevice_executor (OptionsObject (FiltersArray fs)) enumeration
              (set_settled None w)) as X eqn:EX.
  unfold requestDevice_executor in EX. unfold bind at 1 in EX.
  pose proof (every_checkFilter_allowedDevices fs (set_settled None w)) as Hev.
  destruct (every checkFilter fs (set_settled None w)) as [[[]|t] w1] eqn:Eev;
    simpl in Hev; cbn [negb] in EX.
  2: { subst X. intros _. left. exact Hev. }
  2: { subst X. intros _. left. cbn [snd]. unfold reject. now rewrite settle_allowedDevices. }
  apply every_checkFilter_true in Eev as ->. clear Hev.
  destruct enumeration as [listed|t]; [|subst X; intros _; left; reflexivity].
  unfold catch in EX. unfold bind at 1 in EX. unfold listUSBDevices in EX.
  unfold bind at 1 in EX. unfold modify at 1, ret at 1 in EX.
  unfold requestDevice_listed in EX. cbv zeta in EX.
  destruct (List.filter (filterDevice {| filters := fs |}) listed) as [|c cs];
    [subst X; intros _; left; reflexivity|].
  cbn [length Nat.eqb head] in EX. unfold bind at 1 in EX. unfold gets at 1 in EX.
  cbn [devicesFound record set_settled] in EX.
  destruct (devicesFound w) as [found|].
  - unfold bind at 1 in EX. unfold callDevicesFound in EX.
    unfold bind at 1 in EX. unfold modify at 1 in EX.
    destruct (found (c :: cs)) as [[d|]|t]; [| |subst X; intros _; left; reflexivity].
    + unfold ret at 1 in EX. cbv beta iota in EX.
      rewrite selected_defined, selectFn_spec in EX.
      cbn [allowedDevices record set_settled] in EX.
      destruct (replaceFirst (Some d) (allowedDevices w)) as [[r|]|t]; subst X;
        [discriminate | discriminate | intros _; left; reflexivity].
    + unfold ret at 1 in EX. cbv beta iota in EX.
      rewrite selected_undefined, selectFn_spec in EX.
      unfold reject at 1 2 in EX. rewrite !settle_allowedDevices in EX.
      cbn [allowedDevices record set_settled] in EX.
      destruct (allowedDevices w) as [|x l] eqn:E; subst X.
      * intros [= <-]. right. repeat split. cbn. now rewrite E.
      * intros _. left. cbn. now rewrite E.
  - rewrite selectFn_spec in EX. cbn [allowedDevices record set_settled] in EX.
    destruct (replaceFirst (Some c) (allowedDevices w)) as [[r|]|t]; subst X;
      [discriminate | discriminate | intros _; left; reflexivity].
Qed.

(** ** Every request settles *)

Lemma settle_settled s w : settled (snd (settle s w)) <> None.
Proof. unfold settle, modify. simpl. destruct (settled w) eqn:E; simpl; congruence. Qed.

Lemma settle_normal_settled s w u w' :
  settle s w = (Normal u, w') -> settled w' <> None.
Proof. intros E. pose proof (settle_settled s w) as H. now rewrite E in H. Qed.

Lemma endsSettled_settle s : endsSettled (settle s).
Proof. intros w. apply (settle_settled s w). Qed.

Lemma endsSettled_bind {A B} (m : M A) (f : A -> M B) :
  (forall a, endsSettled (f a)) -> endsSettled (bind m f).
Proof.
  intros Hf w. unfold bind. destruct (m w) as [[a|t] w']; [apply Hf | exact I].
Qed.

Lemma endsSettled_catch {A} (m : M A) (h : Thrown -> M A) :
  endsSettled m -> (forall t, endsSettled (h t)) -> endsSettled (catch m h).
Proof.
  intros Hm Hh w. unfold catch. specialize (Hm w).
  destruct (m w) as [[a|t] w']; [exact Hm | apply Hh].
Qed.

Lemma endsSettled_selectFn device : endsSettled (selectFn device).
Proof.
  unfold selectFn. apply endsSettled_bind. intros replaced.
  apply endsSettled_bind. intros _. apply endsSettled_settle.
Qed.

Lemma endsSettled_requestDevice_listed options listed :
  endsSettled (requestDevice_listed options listed).
Proof.
  unfold requestDevice_listed. cbv zeta.
  destruct (length _ =? 0)%nat; [apply endsSettled_settle|].
  apply endsSettled_bind. intros [found|]; [|apply endsSettled_selectFn].
  apply endsSettled_bind. intros device.
  apply endsSettled_bind. intros _. apply endsSettled_selectFn.
Qed.

Lemma checkFilter_false f w w' :
  checkFilter f w = (Normal false, w') -> settled w' <> None.
Proof.
  unfold checkFilter.
  repeat match goal with |- context [if ?b then _ else _] => destruct b end;
    unfold bind, reject, ret; try discriminate.
  all: match goal with |- context [settle ?s ?v] =>
         pose proof (settle_settled s v) as H; destruct (settle s v) as [[[]|t] w1] end;
       simpl in H; congruence.
Qed.

Lemma every_checkFilter_false fs : forall w w',
  every checkFilter fs w = (Normal false, w') -> settled w' <> None.
Proof.
  induction fs as [|f fs IH]; intros w w'; simpl; [unfold ret; congruence|].
  unfold bind. destruct (checkFilter f w) as [[[]|t] w1] eqn:Hf; try discriminate.
  - apply checkFilter_true in Hf as ->. apply IH.
  - unfold ret. intros [= <-]. now apply (checkFilter_false f w).
Qed.

(** The promise of [requestDevice] is settled when the function is done,
    whatever the argument, the enumeration and the state. *)
Lemma requestDevice_settles options enumeration w :
  fst (requestDevice options enumeration w) <> None.
Proof.
  unfold requestDevice.
  destruct (requestDevice_executor options enumeration (set_settled None w))
    as [[u|t] w'] eqn:E; simpl; [|apply settle_settled].
  revert E. unfold requestDevice_executor, reject.
  destruct options as [| |[| |fs]];
    try (intros E; exact (settle_normal_settled _ _ _ _ E)).
  unfold bind at 1.
  destruct (every checkFilter fs (set_settled None w)) as [[[]|t] w1] eqn:Eev;
    cbn [negb]; [| |discriminate].
  - intros E.
    assert (endsSettled
              (catch (let! listed := listUSBDevices enumeration in
                      requestDevice_listed {| filters := fs |} listed)
                     (fun error => settle (Rejected (RequestError error))))) as H.
    { apply endsSettled_catch; [|intros t; apply endsSettled_settle].
      apply endsSettled_bind. intros listed. apply endsSettled_requestDevice_listed. }
    specialize (H w1). now rewrite E in H.
  - unfold ret. intros [= _ <-]. now apply (every_checkFilter_false fs _ _ Eev).
Qed.

(** ** One subscription per event kind *)

Lemma hooks_app_client l id : hooks (l ++ [Client id]) = hooks l.
Proof. rewrite List.filter_app. simpl. apply app_nil_r. Qed.

Lemma removeLast_length {A} `{EqDecision A} (x : A) l r :
  removeLast x l = Some r -> length l = S (length r).
Proof.
  revert r. induction l as [|y l IH]; intros r; simpl; [discriminate|].
  destruct (removeLast x l) as [r'|].
  - intros [= <-]. simpl. now rewrite (IH r' eq_refl).
  - destruct (decide (y = x)); [now intros [= <-] | discriminate].
Qed.

Lemma removeLast_count_none {A} (dec : EqDecision A) (x : A) l :
  removeLast x l = None -> count_occ dec l x = 0%nat.
Proof.
  induction l as [|y l IH]; simpl; [reflexivity|].
  destruct (removeLast x l) as [r'|]; [discriminate|].
  unfold decide, decide_rel. destruct (dec y x); [discriminate|]. intros _. now apply IH.
Qed.

Lemma removeLast_count_some {A} (dec : EqDecision A) (x : A) l r :
  removeLast x l = Some r -> count_occ dec l x = S (count_occ dec r x).
Proof.
  revert r. induction l as [|y l IH]; intros r; simpl; [discriminate|].
  destruct (removeLast x l) as [r'|] eqn:E.
  - intros [= <-]. simpl. rewrite (IH r' eq_refl). now destruct (dec y x).
  - unfold decide, decide_rel. destruct (dec y x); [|discriminate].
    intros [= <-]. now rewrite (removeLast_count_none dec x l E).
Qed.

Lemma removeLast_count {A} (dec : EqDecision A) (x : A) l :
  count_occ dec (default l (removeLast x l)) x = Nat.pred (count_occ dec l x).
Proof.
  destruct (removeLast x l) as [r|] eqn:E; simpl.
  - now rewrite (removeLast_count_some dec x l r E).
  - now rewrite (removeLast_count_none dec x l E).
Qed.

Lemma removeLast_client_hooks id l r :
  removeLast (Client id) l = Some r -> hooks r = hooks l.
Proof.
  revert r. induction l as [|y l IH]; intros r; simpl; [discriminate|].
  destruct (removeLast (Client id) l) as [r'|].
  - intros [= <-]. simpl. now rewrite (IH r' eq_refl).
  - destruct (decide (y = Client id)) as [->|]; [now intros [= <-] | discriminate].
Qed.

Lemma forEach_runListener_hooks event l : forall w,
  forEach (runListener event) l w = forEach (runListener event) (hooks l) w.
Proof.
  induction l as [|x l IH]; intros w; [reflexivity|].
  destruct x; simpl; try apply IH; unfold bind;
    match goal with |- context [match ?m w with _ => _ end] =>
      destruct (m w) as [[[]|t] w'] end; auto.
Qed.

Lemma announce_newListener event w :
  hooks (listeners w newListener) = [NewListenerHook] ->
  announce newListener event w = (onNewListener event >> ret tt) w.
Proof.
  intros H. unfold announce. unfold bind at 1. unfold gets.
  now rewrite forEach_runListener_hooks, H.
Qed.

Lemma announce_removeListener event w :
  hooks (listeners w removeListener) = [RemoveListenerHook] ->
  announce removeListener event w = (onRemoveListener event >> ret tt) w.
Proof.
  intros H. unfold announce. unfold bind at 1. unfold gets.
  now rewrite forEach_runListener_hooks, H.
Qed.

Lemma count_occ_foreign callback ids :
  callback = ConnectCallback \/ callback = DisconnectCallback ->
  count_occ AdapterCallback_eq_dec (map Foreign ids) callback = 0%nat.
Proof.
  intros H. induction ids as [|i ids IH]; cbn [map count_occ]; [reflexivity|].
  destruct (AdapterCallback_eq_dec (Foreign i) callback) as [<-|]; [|exact IH].
  destruct H; discriminate.
Qed.

Lemma new_USB_relayInvariant options foreign : relayInvariant (new_USB options foreign).
Proof.
  destruct options; split; try reflexivity; simpl; apply count_occ_foreign; auto.
Qed.

Lemma at_key_same {K V} `{EqDecision K} (k : K) (g : V -> V) (f : K -> V) :
  at_key k g f k = g (f k).
Proof. unfold at_key. now destruct (decide (k = k)). Qed.

Lemma at_key_other {K V} `{EqDecision K} (k k' : K) (g : V -> V) (f : K -> V) :
  k' <> k -> at_key k g f k' = f k'.
Proof. intros Hk. unfold at_key. now destruct (decide (k' = k)). Qed.

Lemma on_client_relayInvariant event id w :
  relayInvariant w -> relayInvariant (snd (on event (Client id) w)).
Proof.
  intros [Hn Hr Hc Hd]. unfold on. unfold bind at 1.
  rewrite (announce_newListener event w Hn).
  unfold bind at 1. unfold onNewListener, listenerCount. unfold bind at 1. unfold gets at 1.
  unfold subscriptions in *.
  destruct (length (listeners w event) =? 0)%nat eqn:L; cbn [negb];
    destruct event; split; cbn;
    rewrite ?at_key_same, ?at_key_other by discriminate;
    rewrite ?hooks_app_client, ?length_app, ?count_occ_app, ?Nat.add_1_r;
    cbn [length count_occ Nat.eqb]; try assumption.
  all: first [now rewrite Hc, L | now rewrite Hd, L].
Qed.

Lemma off_client_relayInvariant event id w :
  relayInvariant w -> relayInvariant (snd (off event (Client id) w)).
Proof.
  intros [Hn Hr Hc Hd]. unfold off. unfold bind at 1. unfold gets at 1.
  destruct (removeLast (Client id) (listeners w event)) as [rest|] eqn:R;
    [|now split].
  pose proof (removeLast_length _ _ _ R) as Hlen.
  pose proof (removeLast_client_hooks _ _ _ R) as Hhooks.
  unfold bind at 1. unfold modify at 1.
  rewrite announce_removeListener.
  2: { cbn. destruct event; rewrite ?at_key_same, ?at_key_other by discriminate;
       congruence. }
  unfold bind at 1. unfold onRemoveListener, listenerCount. unfold bind at 1. unfold gets at 1.
  cbn [listeners set_listeners]. rewrite at_key_same.
  unfold subscriptions in *.
  destruct (length rest =? 0)%nat eqn:L; cbn [negb];
    destruct event; split; cbn;
    rewrite ?at_key_same, ?at_key_other by discriminate;
    rewrite ?removeLast_count; try congruence.
  all: first [rewrite Hc | rewrite Hd]; now rewrite Hlen, L.
Qed.

Lemma relayInvariant_frame (w w' : World) :
  listeners w' = listeners w -> adapterListeners w' = adapterListeners w ->
  relayInvariant w -> relayInvariant w'.
Proof.
  intros El Ea [Hn Hr Hc Hd]. unfold subscriptions in *.
  split; unfold subscriptions; now rewrite ?El, ?Ea.
Qed.

Lemma step_relayInvariant w op : relayInvariant w -> relayInvariant (step w op).
Proof.
  intros H. destruct op as [e|options e|event id|event id|n]; simpl.
  - apply (preserves_getDevices relayInvariant e); [|exact H].
    intros v o. now apply relayInvariant_frame.
  - apply requestDevice_keeps; try assumption.
    + intros v o. now apply relayInvariant_frame.
    + intros v s. now apply relayInvariant_frame.
    + intros device. apply preserves_selectFn.
      * intros v f. now apply relayInvariant_frame.
      * intros v s. now apply relayInvariant_frame.
  - now apply on_client_relayInvariant.
  - now apply off_client_relayInvariant.
  - apply (preserves_notify relayInvariant); try assumption.
    + intros v o. now apply relayInvariant_frame.
    + intros device. apply preserves_replaceAllowedDevice.
      intros v f. now apply relayInvariant_frame.
Qed.

Lemma run_relayInvariant ops : forall w, relayInvariant w -> relayInvariant (run ops w).
Proof.
  induction ops as [|op ops IH]; intros w H; simpl; [exact H|].
  apply IH. now apply step_relayInvariant.
Qed.

(** C7. In every state the operations reach from a new instance, and for
    each of the two kinds of hot-plug event on its own, the instance holds
    one subscription to the native event of the adapter when the kind has
    at least one listener and none when it has no listener; so the first
    listener of a kind brings the subscription, further ones add none, and
    the removal of the last one takes it away. *)
Theorem one_subscription_while_listened options foreign ops :
  let w := run ops (new_USB options foreign) in
  subscriptions connect w
  = (if (length (listeners w connect) =? 0)%nat then 0%nat else 1%nat) /\
  subscriptions disconnect w
  = (if (length (listeners w disconnect) =? 0)%nat then 0%nat else 1%nat).
Proof.
  cbv zeta.
  destruct (run_relayInvariant ops _ (new_USB_relayInvariant options foreign))
    as [_ _ Hc Hd].
  now split.
Qed.

(** The scenario of the specification: one listener, a second one, and both
    removed, with the subscriptions of the instance after each step. *)
Example connect_listeners_scenario :
  let w0 := new_USB None (fun _ => [7%nat]) in
  let w1 := step w0 (AddListener connect 1) in
  let w2 := step w1 (AddListener connect 2) in
  let w3 := step w2 (RemoveListener connect 1) in
  let w4 := step w3 (RemoveListener connect 2) in
  map (fun w => adapterListeners w EVENT_DEVICE_CONNECT) [w0; w1; w2; w3; w4]
  = [[Foreign 7]; [Foreign 7; ConnectCallback]; [Foreign 7; ConnectCallback];
     [Foreign 7; ConnectCallback]; [Foreign 7]].
Proof. reflexivity. Qed.

(** * Further properties of the operations *)

(** ** Selection on a list of device records *)

Lemma replaceFirst_upsert d (l : list USBDevice) :
  replaceFirst (Some d) (map Some l)
  = Normal (if existsb (sameIdentity d) l then Some (map Some (upsert d l)) else None).
Proof.
  induction l as [|x l IH]; simpl; [reflexivity|].
  destruct (sameIdentity d x); simpl; [reflexivity|].
  rewrite IH. now destruct (existsb (sameIdentity d) l).
Qed.

Lemma upsert_absent d (l : list USBDevice) :
  existsb (sameIdentity d) l = false -> upsert d l = l ++ [d].
Proof.
  induction l as [|x l IH]; simpl; [reflexivity|].
  destruct (sameIdentity d x); simpl; [discriminate|]. intros H. now rewrite IH.
Qed.

Lemma upsert_identities d (l : list USBDevice) :
  identity d ∈ map identity (upsert d l).
Proof.
  induction l as [|x l IH]; simpl; [apply list_elem_of_here|].
  destruct (sameIdentity d x); simpl;
    [apply list_elem_of_here | now apply list_elem_of_further].
Qed.

Lemma sameIdentity_congr a b x :
  identity a = identity b -> sameIdentity a x = sameIdentity b x.
Proof. unfold sameIdentity, identity. now intros [= -> -> ->]. Qed.

Lemma sameIdentity_refl a : sameIdentity a a = true.
Proof. now apply sameIdentity_spec. Qed.

Lemma upsert_upsert d1 d2 (l : list USBDevice) :
  identity d1 = identity d2 -> upsert d2 (upsert d1 l) = upsert d2 l.
Proof.
  intros E. induction l as [|x l IH]; simpl.
  - rewrite <- (sameIdentity_congr d1 d2 d1 E). now rewrite sameIdentity_refl.
  - rewrite <- (sameIdentity_congr d1 d2 x E).
    destruct (sameIdentity d1 x) eqn:S; simpl.
    + rewrite <- (sameIdentity_congr d1 d2 d1 E). now rewrite sameIdentity_refl.
    + rewrite <- (sameIdentity_congr d1 d2 x E), S. now rewrite IH.
Qed.

Lemma upsert_length d (l : list USBDevice) :
  length (upsert d l) = if existsb (sameIdentity d) l then length l else S (length l).
Proof.
  induction l as [|x l IH]; simpl; [reflexivity|].
  destruct (sameIdentity d x); simpl; [reflexivity|].
  rewrite IH. now destruct (existsb (sameIdentity d) l).
Qed.

Lemma upsert_member d (l : list USBDevice) : d ∈ upsert d l.
Proof.
  induction l as [|x l IH]; simpl; [apply list_elem_of_here|].
  destruct (sameIdentity d x); [apply list_elem_of_here | now apply list_elem_of_further].
Qed.

Lemma elem_of_map_Some {A} (x : A) l : x ∈ l -> Some x ∈ map Some l.
Proof.
  induction 1; simpl; [apply list_elem_of_here | now apply list_elem_of_further].
Qed.

(** The selection of a device record on allowed device records ends
    normally and leaves [upsert d allowed]. *)
Lemma selectFn_records d (allowed : list USBDevice) w :
  allowedDevices w = map Some allowed ->
  selectFn (Some d) w
  = resolve (Some d) (set_allowedDevices (fun _ => map Some (upsert d allowed)) w).
Proof.
  intros E. rewrite selectFn_spec, E, replaceFirst_upsert.
  destruct (existsb (sameIdentity d) allowed) eqn:Ex; [reflexivity|].
  f_equal. apply set_allowedDevices_eq. rewrite E, (upsert_absent d allowed Ex).
  now rewrite map_app.
Qed.

Lemma selectFn_records_allowedDevices d (allowed : list USBDevice) w :
  allowedDevices w = map Some allowed ->
  allowedDevices (snd (selectFn (Some d) w)) = map Some (upsert d allowed).
Proof.
  intros E. rewrite (selectFn_records d allowed w E). unfold resolve.
  now rewrite settle_allowedDevices.
Qed.

(** X5. Two selections of records of one identity, one after the other on
    allowed device records, leave the list that the second selection alone
    leaves: one entry of that identity, holding the record selected last,
    and no entry more than after the first selection. *)
Theorem selection_last_writer_wins w d1 d2 (allowed : list USBDevice) :
  allowedDevices w = map Some allowed ->
  identity d1 = identity d2 ->
  let first := snd (selectFn (Some d1) w) in
  let second := snd (selectFn (Some d2) first) in
  allowedDevices second = allowedDevices (snd (selectFn (Some d2) w)) /\
  length (allowedDevices second) = length (allowedDevices first) /\
  Some d2 ∈ allowedDevices second.
Proof.
  intros E Hid. cbv zeta.
  pose proof (selectFn_records_allowedDevices d1 allowed w E) as E1.
  rewrite (selectFn_records_allowedDevices d2 (upsert d1 allowed) _ E1).
  rewrite (selectFn_records_allowedDevices d2 allowed w E), E1.
  rewrite (upsert_upsert d1 d2 allowed Hid). split; [reflexivity|]. split.
  - rewrite <- (upsert_upsert d1 d2 allowed Hid) at 1.
    rewrite !length_map, (upsert_length d2 (upsert d1 allowed)).
    assert (existsb (sameIdentity d2) (upsert d1 allowed) = true) as ->; [|reflexivity].
    rewrite existsb_sameIdentity. apply bool_decide_eq_true.
    rewrite <- Hid. apply upsert_identities.
  - apply elem_of_map_Some, upsert_member.
Qed.

Lemma selection_last_writer_wins_witness :
  allowedDevices
    (snd (selectFn (Some hidDevice)
            (snd (selectFn (Some hidDeviceUnplugged) (withAllowed [Some otherDevice])))))
  = [Some otherDevice; Some hidDevice].
Proof.
  destruct (selection_last_writer_wins (withAllowed [Some otherDevice])
              hidDeviceUnplugged hidDevice [otherDevice] eq_refl eq_refl)
    as (Hsame & _ & _).
  rewrite Hsame. reflexivity.
Defined.

(** ** How a request ends *)

Lemma notResolved_reject reason :
  preserves (fun v => forall x, settled v <> Some (Resolved x)) (reject reason).
Proof.
  intros w H x. unfold reject, settle, modify. simpl.
  destruct (settled w) eqn:E; simpl; [rewrite E; apply H | discriminate].
Qed.

Lemma notResolved_every_checkFilter fs :
  preserves (fun v => forall x, settled v <> Some (Resolved x)) (every checkFilter fs).
Proof.
  apply preserves_every. intros f. unfold checkFilter.
  repeat (apply preserves_if || apply preserves_bind || intros _);
    auto using notResolved_reject with keeps.
Qed.

(** A request that resolves has selected a device record, and the allowed
    devices are what the loop of [replaceAllowedDevice] left, or the list
    with the record at its end. *)
Lemma resolved_request_allowedDevices options enumeration w v :
  fst (requestDevice options enumeration w) = Some (Resolved v) ->
  exists d, v = Some d /\
    match replaceFirst (Some d) (allowedDevices w) with
    | Normal (Some r) => allowedDevices (snd (requestDevice options enumeration w)) = r
    | Normal None =>
        allowedDevices (snd (requestDevice options enumeration w))
        = allowedDevices w ++ [Some d]
    | Throw _ => False
    end.
Proof.
  unfold requestDevice.
  destruct options as [| |[| |fs]]; try discriminate.
  remember (requestDevice_executor (OptionsObject (FiltersArray fs)) enumeration
              (set_settled None w)) as X eqn:EX.
  unfold requestDevice_executor in EX. unfold bind at 1 in EX.
  pose proof (notResolved_every_checkFilter fs (set_settled None w)
                (fun x => ltac:(discriminate))) as Hev.
  destruct (every checkFilter fs (set_settled None w)) as [[[]|t] w1] eqn:Eev;
    cbn [negb snd] in EX, Hev.
  2: { subst X. cbn [fst snd]. unfold ret. cbn [fst snd]. intros H.
       now destruct (Hev v). }
  2: { subst X. cbn [fst snd]. intros H.
       now destruct (notResolved_reject t w1 Hev v). }
  clear Hev.
  apply every_checkFilter_true in Eev as ->.
  destruct enumeration as [listed|t]; [|subst X; discriminate].
  unfold catch in EX. unfold bind at 1 in EX. unfold listUSBDevices in EX.
  unfold bind at 1 in EX. unfold modify at 1, ret at 1 in EX.
  unfold requestDevice_listed in EX. cbv zeta in EX.
  destruct (List.filter (filterDevice {| filters := fs |}) listed) as [|c cs];
    [subst X; discriminate|].
  cbn [length Nat.eqb head] in EX. unfold bind at 1 in EX. unfold gets at 1 in EX.
  cbn [devicesFound record set_settled] in EX.
  destruct (devicesFound w) as [found|].
  - unfold bind at 1 in EX. unfold callDevicesFound in EX.
    unfold bind at 1 in EX. unfold modify at 1 in EX.
    destruct (found (c :: cs)) as [[d|]|t]; [| |subst X; discriminate].
    + unfold ret at 1 in EX. cbv beta iota in EX.
      rewrite selected_defined, selectFn_spec in EX.
      cbn [allowedDevices record set_settled] in EX.
      destruct (replaceFirst (Some d) (allowedDevices w)) as [[r|]|t] eqn:Er; subst X;
        [| |discriminate]; intros [= <-]; exists d; rewrite Er; split; reflexivity.
    + unfold ret at 1 in EX. cbv beta iota in EX.
      rewrite selected_undefined, selectFn_spec in EX.
      unfold reject at 1 2 in EX. rewrite !settle_allowedDevices in EX.
      cbn [allowedDevices record set_settled] in EX.
      destruct (replaceFirst None (allowedDevices w)) as [[r|]|t]; subst X; discriminate.
  - rewrite selectFn_spec in EX. cbn [allowedDevices record set_settled] in EX.
    destruct (replaceFirst (Some c) (allowedDevices w)) as [[r|]|t] eqn:Er; subst X;
      [| |discriminate]; intros [= <-]; exists c; rewrite Er; split; reflexivity.
Qed.

Lemma replaceFirst_replaced device l r :
  replaceFirst device l = Normal (Some r) -> device ∈ r /\ length r = length l.
Proof.
  revert r. induction l as [|e l IH]; intros r; simpl; [discriminate|].
  destruct device as [d|]; [|discriminate]. destruct e as [x|]; [|discriminate].
  destruct (sameIdentity d x).
  - intros [= <-]. split; [apply list_elem_of_here | reflexivity].
  - destruct (replaceFirst (Some d) l) as [[r'|]|t]; try discriminate.
    intros [= <-]. destruct (IH r' eq_refl) as [Hin Hlen].
    split; [now apply list_elem_of_further | simpl; now rewrite Hlen].
Qed.

(** X9. However [requestDevice] is called, its promise is settled when it
    is done, in one of three ways: resolved with a device record, which is
    then among the allowed devices, in the place of an entry or at the end
    of the list; rejected, with the allowed devices as they were; or rejected
    with "selected device not found" on an empty list of allowed devices,
    which then holds the one entry [undefined]. *)
Theorem requestDevice_outcomes options enumeration w :
  let result := requestDevice options enumeration w in
  (exists d,
     fst result = Some (Resolved (Some d)) /\
     Some d ∈ allowedDevices (snd result) /\
     (length (allowedDevices (snd result)) = length (allowedDevices w) \/
      allowedDevices (snd result) = allowedDevices w ++ [Some d])) \/
  (exists reason,
     fst result = Some (Rejected reason) /\
     allowedDevices (snd result) = allowedDevices w) \/
  (fst result = Some (Rejected (Error "selected device not found")) /\
   allowedDevices w = [] /\ allowedDevices (snd result) = [None]).
Proof.
  cbv zeta. pose proof (requestDevice_settles options enumeration w) as Hs.
  destruct (fst (requestDevice options enumeration w)) as [[v|reason]|] eqn:E;
    [| |now destruct Hs].
  - left. destruct (resolved_request_allowedDevices _ _ _ _ E) as (d & -> & H).
    exists d. split; [reflexivity|].
    destruct (replaceFirst (Some d) (allowedDevices w)) as [[r|]|t] eqn:Er; [| |easy].
    + rewrite H. destruct (replaceFirst_replaced _ _ _ Er) as [Hin Hlen]. auto.
    + rewrite H. split; [|now right].
      apply elem_of_app. right. apply list_elem_of_here.
  - right. destruct (rejected_request_allowedDevices _ _ _ _ E) as [H|(-> & H0 & H1)].
    + left. now exists reason.
    + right. auto.
Qed.

(** ** A resolved device is discoverable *)

Lemma resolved_request_records options enumeration w d (allowed : list USBDevice) :
  allowedDevices w = map Some allowed ->
  fst (requestDevice options enumeration w) = Some (Resolved (Some d)) ->
  allowedDevices (snd (requestDevice options enumeration w)) = map Some (upsert d allowed).
Proof.
  intros Ew E. destruct (resolved_request_allowedDevices _ _ _ _ E) as (d' & [= <-] & H).
  rewrite Ew, replaceFirst_upsert in H.
  destruct (existsb (sameIdentity d) allowed) eqn:Ex; [exact H|].
  now rewrite H, (upsert_absent d allowed Ex), map_app.
Qed.

(** X4. After a request on allowed device records has resolved with the
    record [d], a [getDevices] on the state it leaves returns every listed
    device that is connected and has the identity triple of [d]. *)
Theorem resolved_device_is_discoverable w options enumeration d (allowed devices : list USBDevice) d' :
  allowedDevices w = map Some allowed ->
  fst (requestDevice options enumeration w) = Some (Resolved (Some d)) ->
  d' ∈ devices -> connected d' = true -> identity d' = identity d ->
  exists found,
    fst (getDevices (Normal devices) (snd (requestDevice options enumeration w)))
    = Normal found /\ d' ∈ found.
Proof.
  intros Ew E Hin Hc Hid.
  pose proof (resolved_request_records _ _ _ _ _ Ew E) as Ea.
  eexists. split.
  - unfold getDevices, listUSBDevices.
    unfold bind at 1. unfold bind at 1. unfold modify, ret.
    rewrite (filterM_pure getDevices_callback
               (fun device => connected device
                              && bool_decide (identity device ∈ map identity (upsert d allowed)))).
    + reflexivity.
    + intros x. now apply getDevices_callback_spec.
  - apply list_elem_of_In, List.filter_In. split; [now apply list_elem_of_In|].
    rewrite Hc. simpl. apply bool_decide_eq_true. rewrite Hid. apply upsert_identities.
Qed.

Lemma resolved_device_is_discoverable_witness :
  exists found,
    fst (getDevices (Normal [otherDevice; hidDevice])
           (snd (requestDevice (OptionsObject (FiltersArray [classOnly]))
                   (Normal [hidDevice]) (withAllowed [Some otherDevice]))))
    = Normal found /\ hidDevice ∈ found.
Proof.
  apply (resolved_device_is_discoverable (withAllowed [Some otherDevice])
           (OptionsObject (FiltersArray [classOnly])) (Normal [hidDevice]) hidDevice
           [otherDevice] [otherDevice; hidDevice] hidDevice);
    [reflexivity | reflexivity | | reflexivity | reflexivity].
  apply list_elem_of_further, list_elem_of_here.
Defined.

(** ** Errors of a request *)

(** Past the validation, whatever the enumeration: the adapter is asked, and
    the callback of [then] runs under the [catch]. *)
Lemma requestDevice_executor_complete fs enumeration w :
  forallb hierarchyComplete fs = true ->
  requestDevice_executor (OptionsObject (FiltersArray fs)) enumeration w =
  catch (let! listed := listUSBDevices enumeration in
         requestDevice_listed {| filters := fs |} listed)
        (fun error => reject (RequestError error)) w.
Proof.
  intros Hfs. unfold requestDevice_executor.
  now rewrite (bind_normal _ _ _ _ _ (every_checkFilter_complete fs w Hfs)).
Qed.


(** X2. A failure of the enumeration reaches the caller of [getDevices] as
    it is, and the caller of [requestDevice] wrapped in a request error;
    a failure of the selection callback is wrapped in the same way. In each
    case the allowed devices are as before, and after a failed enumeration
    the callback is not called. *)
Theorem failures_wrapped_by_requests fs t w :
  forallb hierarchyComplete fs = true ->
  getDevices (Throw t) w = (Throw t, record ListUSBDevices w) /\
  requestDevice (OptionsObject (FiltersArray fs)) (Throw t) w
  = (Some (Rejected (RequestError t)),
     record ListUSBDevices (set_settled (Some (Rejected (RequestError t))) w)) /\
  (forall listed found,
     devicesFound w = Some found ->
     List.filter (filterDevice {| filters := fs |}) listed <> [] ->
     found (List.filter (filterDevice {| filters := fs |}) listed) = Throw t ->
     requestDevice (OptionsObject (FiltersArray fs)) (Normal listed) w
     = (Some (Rejected (RequestError t)),
        record (DevicesFound (List.filter (filterDevice {| filters := fs |}) listed))
          (record ListUSBDevices (set_settled (Some (Rejected (RequestError t))) w)))).
Proof.
  intros Hfs. split; [reflexivity|]. split.
  - unfold requestDevice. now rewrite requestDevice_executor_complete.
  - intros listed found Hcb Hne Hfound.
    unfold requestDevice. rewrite requestDevice_executor_listed by exact Hfs.
    unfold catch, requestDevice_listed. cbv zeta.
    destruct (List.filter (filterDevice {| filters := fs |}) listed) as [|c cs] eqn:Ef;
      [congruence|].
    cbn [length Nat.eqb]. unfold bind at 1. unfold gets at 1.
    cbn [devicesFound record set_settled]. rewrite Hcb.
    unfold bind at 1. unfold callDevicesFound. unfold bind at 1. unfold modify at 1.
    now rewrite Hfound.
Qed.

Lemma failures_wrapped_by_requests_witness :
  fst (requestDevice (OptionsObject (FiltersArray [classOnly]))
         (Throw (Failure "LIBUSB_ERROR_ACCESS")) (withCallback alwaysOther))
  = Some (Rejected (RequestError (Failure "LIBUSB_ERROR_ACCESS"))) /\
  fst (requestDevice (OptionsObject (FiltersArray [classOnly]))
         (Normal [hidDevice]) (withCallback cancelled))
  = Some (Rejected (RequestError (Failure "cancelled"))).
Proof.
  split.
  - destruct (failures_wrapped_by_requests [classOnly] (Failure "LIBUSB_ERROR_ACCESS")
                (withCallback alwaysOther) eq_refl) as (_ & -> & _).
    reflexivity.
  - destruct (failures_wrapped_by_requests [classOnly] (Failure "cancelled")
                (withCallback cancelled) eq_refl) as (_ & _ & H).
    rewrite (H [hidDevice] cancelled); [reflexivity | reflexivity | discriminate | reflexivity].
Defined.

(** ** Selection without a callback *)

Lemma filter_first {A} (p : A -> bool) l1 d l2 :
  Forall (fun x => p x = false) l1 -> p d = true ->
  List.filter p (l1 ++ d :: l2) = d :: List.filter p l2.
Proof.
  intros H1 Hd. induction H1 as [|x l1 Hx _ IH]; simpl.
  - now rewrite Hd.
  - now rewrite Hx.
Qed.

Lemma requestDevice_log options enumeration w :
  log (snd (requestDevice options enumeration w))
  = log (snd (requestDevice_executor options enumeration (set_settled None w))).
Proof.
  unfold requestDevice.
  destruct (requestDevice_executor options enumeration (set_settled None w))
    as [[u|t] w']; [reflexivity|].
  cbn [snd]. unfold reject, settle, modify. simpl. now destruct (settled w').
Qed.

(** X3. Without a selection callback, a request that passes the validation
    resolves with the first listed device that matches a filter, in the
    order of the enumeration, and that record is then among the allowed
    devices; the adapter has been asked once and nothing else was called. *)
Theorem requestDevice_selects_first_match w fs l1 d l2 (allowed : list USBDevice) :
  forallb hierarchyComplete fs = true ->
  devicesFound w = None ->
  allowedDevices w = map Some allowed ->
  Forall (fun x => filterDevice {| filters := fs |} x = false) l1 ->
  filterDevice {| filters := fs |} d = true ->
  let result := requestDevice (OptionsObject (FiltersArray fs)) (Normal (l1 ++ d :: l2)) w in
  fst result = Some (Resolved (Some d)) /\
  Some d ∈ allowedDevices (snd result) /\
  log (snd result) = log w ++ [ListUSBDevices].
Proof.
  intros Hfs Hcb Ew H1 Hd. cbv zeta.
  assert (requestDevice_executor (OptionsObject (FiltersArray fs)) (Normal (l1 ++ d :: l2))
            (set_settled None w)
          = resolve (Some d)
              (set_allowedDevices (fun _ => map Some (upsert d allowed))
                 (record ListUSBDevices (set_settled None w)))) as E.
  { rewrite requestDevice_executor_listed by exact Hfs.
    unfold catch, requestDevice_listed. cbv zeta.
    rewrite (filter_first _ l1 d l2 H1 Hd).
    cbn [length Nat.eqb head]. unfold bind at 1. unfold gets at 1.
    cbn [devicesFound record set_settled]. rewrite Hcb.
    now rewrite (selectFn_records d allowed). }
  split; [|split].
  - unfold requestDevice. now rewrite E.
  - unfold requestDevice. rewrite E. cbn. apply elem_of_map_Some, upsert_member.
  - rewrite requestDevice_log, E. reflexivity.
Qed.

Lemma requestDevice_selects_first_match_witness :
  fst (requestDevice (OptionsObject (FiltersArray [classOnly]))
         (Normal ([otherDevice] ++ hidDeviceUnplugged :: [hidDevice]))
         (withAllowed [Some otherDevice]))
  = Some (Resolved (Some hidDeviceUnplugged)).
Proof.
  apply (requestDevice_selects_first_match (withAllowed [Some otherDevice]) [classOnly]
           [otherDevice] hidDeviceUnplugged [hidDevice] [otherDevice]);
    [reflexivity | reflexivity | reflexivity | | reflexivity].
  repeat constructor.
Defined.

(** ** What the selection callback is given *)

Lemma log_after_selection device w :
  log (snd (catch
              ((if negb (truthy device)
                then reject (Error "selected device not found") else ret tt)
                 >> selectFn device)
              (fun error => reject (RequestError error)) w))
  = log w.
Proof.
  apply (preserves_catch (fun v => log v = log w)); [| |reflexivity].
  - apply preserves_bind.
    + apply preserves_if; [apply preserves_settle; now intros ? ?|apply preserves_ret].
    + intros _. apply preserves_selectFn; now intros ? ?.
  - intros t. apply preserves_settle. now intros ? ?.
Qed.

Lemma requestDevice_log_with_callback w fs listed found :
  forallb hierarchyComplete fs = true ->
  devicesFound w = Some found ->
  let candidates := List.filter (filterDevice {| filters := fs |}) listed in
  log (snd (requestDevice (OptionsObject (FiltersArray fs)) (Normal listed) w))
  = log w ++ ListUSBDevices ::
      match candidates with
      | [] => []
      | _ :: _ => [DevicesFound candidates]
      end.
Proof.
  intros Hfs Hcb. cbv zeta. rewrite requestDevice_log.
  rewrite requestDevice_executor_listed by exact Hfs.
  destruct (List.filter (filterDevice {| filters := fs |}) listed) as [|c cs] eqn:Ef.
  - unfold catch, requestDevice_listed. cbv zeta. rewrite Ef. reflexivity.
  - remember (record ListUSBDevices (set_settled None w)) as w2 eqn:E2.
    assert (log w2 = log w ++ [ListUSBDevices]) as L2 by (subst w2; reflexivity).
    assert (devicesFound w2 = Some found) as Hcb2 by (subst w2; exact Hcb).
    clear E2.
    destruct (found (c :: cs)) as [device|t] eqn:Hfound.
    + unfold catch.
      rewrite (requestDevice_listed_selected fs listed found device w2 Hcb2)
        by (rewrite Ef; congruence).
      rewrite Ef.
      pose proof (log_after_selection device (record (DevicesFound (c :: cs)) w2)) as K.
      unfold catch in K. rewrite K. cbn [log record]. rewrite L2, <- app_assoc. reflexivity.
    + unfold catch, requestDevice_listed. cbv zeta. rewrite Ef.
      cbn [length Nat.eqb]. unfold bind at 1. unfold gets at 1. rewrite Hcb2.
      unfold bind at 1. unfold callDevicesFound. unfold bind at 1. unfold modify at 1.
      rewrite Hfound. unfold throw. cbv beta iota. unfold reject.
      apply (preserves_settle
               (fun v => log v = log w ++ [ListUSBDevices; DevicesFound (c :: cs)]));
        [now intros ? ?|].
      cbn [log record]. now rewrite L2, <- app_assoc.
Qed.


(** X10. With a selection callback configured and a request that passes the
    validation, the trace of outside calls grows by the enumeration and,
    when at least one listed device matches, by one call of the callback
    with exactly the matching devices in the order of the enumeration; when
    none matches the callback is not called. *)
Theorem devicesFound_called_with_matches w fs listed found :
  forallb hierarchyComplete fs = true ->
  devicesFound w = Some found ->
  let candidates := List.filter (filterDevice {| filters := fs |}) listed in
  log (snd (requestDevice (OptionsObject (FiltersArray fs)) (Normal listed) w))
  = log w ++ ListUSBDevices ::
      match candidates with
      | [] => []
      | _ :: _ => [DevicesFound candidates]
      end.
Proof. exact (requestDevice_log_with_callback w fs listed found). Qed.

Lemma devicesFound_called_with_matches_witness :
  log (snd (requestDevice (OptionsObject (FiltersArray [classOnly]))
              (Normal [otherDevice; hidDevice; hidDeviceUnplugged])
              (withCallback nothingSelected)))
  = [ListUSBDevices; DevicesFound [hidDevice; hidDeviceUnplugged]].
Proof.
  apply (devicesFound_called_with_matches (withCallback nothingSelected) [classOnly]
           [otherDevice; hidDevice; hidDeviceUnplugged] nothingSelected);
    reflexivity.
Defined.

(** ** Filters as a disjunction of conjunctions *)

Lemma existsb_Permutation {A} (p : A -> bool) l l' :
  Permutation l l' -> existsb p l = existsb p l'.
Proof.
  induction 1; simpl; try congruence.
  destruct (p x), (p y); reflexivity.
Qed.

Lemma forallb_Permutation {A} (p : A -> bool) l l' :
  Permutation l l' -> forallb p l = forallb p l'.
Proof.
  induction 1; simpl; try congruence.
  destruct (p x), (p y); reflexivity.
Qed.

(** X8. The order of the filters does not matter to matching, and for
    filters that pass the validation it does not matter to a request: two
    requests whose filters are the same up to their order end in the same
    way and leave the same state. *)
Theorem filter_order_irrelevant fs fs' :
  Permutation fs fs' ->
  (forall device,
     filterDevice {| filters := fs |} device = filterDevice {| filters := fs' |} device) /\
  (forallb hierarchyComplete fs = true ->
   forall enumeration w,
     requestDevice (OptionsObject (FiltersArray fs)) enumeration w
     = requestDevice (OptionsObject (FiltersArray fs')) enumeration w).
Proof.
  intros Hp.
  assert (forall device,
            filterDevice {| filters := fs |} device
            = filterDevice {| filters := fs' |} device) as Hm.
  { intros device. unfold filterDevice. simpl. now apply existsb_Permutation. }
  split; [exact Hm|]. intros Hfs enumeration w.
  assert (forallb hierarchyComplete fs' = true) as Hfs'.
  { now rewrite <- (forallb_Permutation hierarchyComplete fs fs' Hp). }
  unfold requestDevice. rewrite !requestDevice_executor_complete by assumption.
  assert (catch (let! listed := listUSBDevices enumeration in
                 requestDevice_listed {| filters := fs |} listed)
                (fun error => reject (RequestError error)) (set_settled None w)
          = catch (let! listed := listUSBDevices enumeration in
                   requestDevice_listed {| filters := fs' |} listed)
                  (fun error => reject (RequestError error)) (set_settled None w)) as ->;
    [|reflexivity].
  apply catch_ext, bind_ext. intros listed w'.
  unfold requestDevice_listed. cbv zeta.
  now rewrite (filter_ext' _ _ listed Hm).
Qed.

Lemma filter_order_irrelevant_witness :
  requestDevice (OptionsObject (FiltersArray [classOnly; Filter.empty]))
    (Normal [otherDevice; hidDevice]) (withAllowed [])
  = requestDevice (OptionsObject (FiltersArray [Filter.empty; classOnly]))
      (Normal [otherDevice; hidDevice]) (withAllowed []).
Proof.
  apply (filter_order_irrelevant [classOnly; Filter.empty] [Filter.empty; classOnly]).
  - apply perm_swap.
  - reflexivity.
Defined.

(** X7. A filter matches a device exactly when its vendor and product
    criteria pass and either it has a class code and some interface passes
    the class, subclass and protocol criteria on its alternate descriptor, or
    the device passes them on its own codes and the serial number criterion
    does not fail; an interface is judged on the three class criteria alone.
    A criterion passes when its member is not truthy or equals the value. *)
Theorem filterMatches_characterised device filter :
  filterMatches device filter
  = passes (Filter.vendorId filter) (vendorId device)
    && passes (Filter.productId filter) (productId device)
    && ((truthy (Filter.classCode filter)
         && existsb (fun iface =>
                       passes (Filter.classCode filter) (interfaceClass (alternate iface))
                       && passes (Filter.subclassCode filter)
                            (interfaceSubclass (alternate iface))
                       && passes (Filter.protocolCode filter)
                            (interfaceProtocol (alternate iface)))
              (interfaces (configuration device)))
        || (passes (Filter.classCode filter) (deviceClass device)
            && passes (Filter.subclassCode filter) (deviceSubclass device)
            && passes (Filter.protocolCode filter) (deviceProtocol device)
            && negb (serialFails filter device))).
Proof.
  unfold filterMatches, serialFails, passes.
  rewrite (existsb_ext' (interfaceMatches filter)
             (fun iface =>
                negb (truthy (Filter.classCode filter)
                      && (Filter.classCode filter !==n interfaceClass (alternate iface)))
                && negb (truthy (Filter.subclassCode filter)
                         && (Filter.subclassCode filter !==n interfaceSubclass (alternate iface)))
                && negb (truthy (Filter.protocolCode filter)
                         && (Filter.protocolCode filter !==n interfaceProtocol (alternate iface))))).
  2: { intros iface. unfold interfaceMatches.
       repeat match goal with |- context [if ?b then _ else _] => destruct b end;
         reflexivity. }
  repeat match goal with |- context [if ?b then _ else _] => destruct b eqn:? end;
    simpl; try reflexivity;
    repeat match goal with H : _ = _ |- _ => rewrite H end; simpl;
    rewrite ?andb_false_r, ?orb_true_r, ?andb_true_r; try reflexivity.
Qed.

(** ** The relay of disconnect notifications *)

Lemma findM_handle handle (l : list USBDevice) w :
  findM (fun entry => let! h := property "_handle" _handle entry in
                      ret (String.eqb h handle)) (map Some l) w
  = (Normal (option_map Some (List.find (fun x => String.eqb (_handle x) handle) l)), w).
Proof.
  induction l as [|x l IH]; [reflexivity|]. simpl.
  unfold bind at 1. unfold bind at 1. unfold property, ret.
  destruct (String.eqb (_handle x) handle); [reflexivity | exact IH].
Qed.

Lemma find_none_handle handle (l : list USBDevice) :
  Forall (fun x => _handle x <> handle) l ->
  List.find (fun x => String.eqb (_handle x) handle) l = None.
Proof.
  induction 1 as [|x l Hx _ IH]; simpl; [reflexivity|].
  apply String.eqb_neq in Hx. now rewrite Hx.
Qed.

Lemma find_first_handle handle (l1 l2 : list USBDevice) e :
  Forall (fun x => _handle x <> handle) l1 -> _handle e = handle ->
  List.find (fun x => String.eqb (_handle x) handle) (l1 ++ e :: l2) = Some e.
Proof.
  intros H1 He. induction H1 as [|x l1 Hx _ IH]; simpl.
  - apply String.eqb_eq in He. now rewrite He.
  - apply String.eqb_neq in Hx. now rewrite Hx.
Qed.

(** X6. A disconnect notification of the adapter, on allowed device
    records: when an allowed record carries the handle, a disconnect event
    with the first such record, as it is stored, goes to the listeners of
    the instance; when none does, nothing is emitted. In both cases the
    allowed devices stay as they are: the record of a device that went away
    is kept. *)
Theorem disconnect_notification_relayed w handle (allowed : list USBDevice) :
  allowedDevices w = map Some allowed ->
  (Forall (fun x => _handle x <> handle) allowed ->
   deviceDisconnectCallback handle w = (Normal tt, w)) /\
  (forall l1 e l2,
     allowed = l1 ++ e :: l2 ->
     Forall (fun x => _handle x <> handle) l1 -> _handle e = handle ->
     deviceDisconnectCallback handle w
     = (Normal tt, record (Emit disconnect e (listeners w disconnect)) w)).
Proof.
  intros E. unfold deviceDisconnectCallback. split.
  - intros Hn. unfold bind at 1. unfold gets at 1. rewrite E.
    rewrite (bind_normal _ _ _ _ _ (findM_handle handle allowed w)).
    now rewrite (find_none_handle handle allowed Hn).
  - intros l1 e l2 -> H1 He. unfold bind at 1. unfold gets at 1. rewrite E.
    rewrite (bind_normal _ _ _ _ _ (findM_handle handle (l1 ++ e :: l2) w)).
    now rewrite (find_first_handle handle l1 l2 e H1 He).
Qed.

Lemma disconnect_notification_relayed_witness :
  deviceDisconnectCallback "handle-1" (withAllowed [Some otherDevice; Some hidDevice])
  = (Normal tt,
     record (Emit disconnect hidDevice []) (withAllowed [Some otherDevice; Some hidDevice]))
  /\ deviceDisconnectCallback "handle-9" (withAllowed [Some otherDevice; Some hidDevice])
     = (Normal tt, withAllowed [Some otherDevice; Some hidDevice]).
Proof.
  split.
  - apply (disconnect_notification_relayed
             (withAllowed [Some otherDevice; Some hidDevice]) "handle-1"
             [otherDevice; hidDevice] eq_refl)
      with (l1 := [otherDevice]) (e := hidDevice) (l2 := []);
      [reflexivity | repeat constructor; discriminate | reflexivity].
  - apply (disconnect_notification_relayed
             (withAllowed [Some otherDevice; Some hidDevice]) "handle-9"
             [otherDevice; hidDevice] eq_refl).
    repeat constructor; discriminate.
Defined.

(** ** What only a request can do *)

Lemma replaceFirst_length device l r :
  replaceFirst device l = Normal (Some r) -> length r = length l.
Proof. intros H. now destruct (replaceFirst_replaced device l r H). Qed.

Lemma keeps_replaceAllowedDevice_identities L n device :
  preserves (fun v => identities (allowedDevices v) = L /\ length (allowedDevices v) = n)
    (replaceAllowedDevice device).
Proof.
  intros w [HL Hn]. rewrite replaceAllowedDevice_spec.
  destruct (replaceFirst device (allowedDevices w)) as [[r|]|t] eqn:E; simpl; auto.
  rewrite (replaceFirst_identities _ _ _ E), (replaceFirst_length _ _ _ E). auto.
Qed.

Lemma step_not_request L n w op :
  isRequest op = false ->
  identities (allowedDevices w) = L /\ length (allowedDevices w) = n ->
  identities (allowedDevices (step w op)) = L /\ length (allowedDevices (step w op)) = n.
Proof.
  intros Hop H. destruct op as [e|options e|event id|event id|ntf]; simpl; [|discriminate| | |].
  - now apply (preserves_getDevices
                 (fun v => identities (allowedDevices v) = L /\ length (allowedDevices v) = n) e).
  - apply (preserves_on
             (fun v => identities (allowedDevices v) = L /\ length (allowedDevices v) = n));
      [split; now intros ? ?|exact H].
  - apply (preserves_off
             (fun v => identities (allowedDevices v) = L /\ length (allowedDevices v) = n));
      [split; now intros ? ?|exact H].
  - apply (preserves_notify
             (fun v => identities (allowedDevices v) = L /\ length (allowedDevices v) = n));
      [now intros ? ?| |exact H].
    intros device. apply keeps_replaceAllowedDevice_identities.
Qed.

(** X14. An operation that is not a request (a discovery, the addition or
    removal of a listener, a connect or disconnect notification of the
    adapter) leaves the identity triples of the allowed devices, in their
    order, and the number of entries as they were: a notification can
    refresh the record of an allowed device, and nothing but a request
    allows a device. *)
Theorem only_requests_allow w op :
  isRequest op = false ->
  identities (allowedDevices (step w op)) = identities (allowedDevices w) /\
  length (allowedDevices (step w op)) = length (allowedDevices w).
Proof. intros Hop. now apply step_not_request. Qed.

Lemma only_requests_allow_witness :
  let w := step (withAllowed [Some hidDeviceUnplugged]) (AddListener connect 1) in
  allowedDevices (step w (Notify (DeviceConnected hidDevice))) = [Some hidDevice] /\
  identities (allowedDevices (step w (Notify (DeviceConnected hidDevice))))
  = identities (allowedDevices w).
Proof.
  cbv zeta. split; [reflexivity|].
  apply (only_requests_allow
           (step (withAllowed [Some hidDeviceUnplugged]) (AddListener connect 1))
           (Notify (DeviceConnected hidDevice))).
  reflexivity.
Defined.

(** ** Permissions are never taken back *)

Lemma grows_selectFn L n device :
  preserves (fun v => (exists extra, identities (allowedDevices v) = L ++ extra)
                      /\ (n <= length (allowedDevices v))%nat)
    (selectFn device).
Proof.
  intros w [[extra HL] Hn]. rewrite selectFn_spec.
  destruct (replaceFirst device (allowedDevices w)) as [[r|]|t] eqn:E;
    [| |split; eauto].
  - unfold resolve. rewrite settle_allowedDevices. simpl.
    rewrite (replaceFirst_identities _ _ _ E), (replaceFirst_length _ _ _ E). eauto.
  - unfold resolve. rewrite settle_allowedDevices. simpl.
    rewrite identities_app, HL, length_app, <- app_assoc. split; [eauto | lia].
Qed.

Lemma grows_replaceAllowedDevice L n device :
  preserves (fun v => (exists extra, identities (allowedDevices v) = L ++ extra)
                      /\ (n <= length (allowedDevices v))%nat)
    (replaceAllowedDevice device).
Proof.
  intros w [[extra HL] Hn]. rewrite replaceAllowedDevice_spec.
  destruct (replaceFirst device (allowedDevices w)) as [[r|]|t] eqn:E; simpl; eauto.
  rewrite (replaceFirst_identities _ _ _ E), (replaceFirst_length _ _ _ E). eauto.
Qed.

Lemma grows_step L n w op :
  (exists extra, identities (allowedDevices w) = L ++ extra)
  /\ (n <= length (allowedDevices w))%nat ->
  (exists extra, identities (allowedDevices (step w op)) = L ++ extra)
  /\ (n <= length (allowedDevices (step w op)))%nat.
Proof.
  intros H. destruct op as [e|options e|event id|event id|ntf]; simpl.
  - now apply (preserves_getDevices
                 (fun v => (exists extra, identities (allowedDevices v) = L ++ extra)
                           /\ (n <= length (allowedDevices v))%nat) e).
  - apply (requestDevice_keeps
             (fun v => (exists extra, identities (allowedDevices v) = L ++ extra)
                       /\ (n <= length (allowedDevices v))%nat));
      try assumption; try now intros ? ?.
    intros device. apply grows_selectFn.
  - apply (preserves_on
             (fun v => (exists extra, identities (allowedDevices v) = L ++ extra)
                       /\ (n <= length (allowedDevices v))%nat));
      [split; now intros ? ?|exact H].
  - apply (preserves_off
             (fun v => (exists extra, identities (allowedDevices v) = L ++ extra)
                       /\ (n <= length (allowedDevices v))%nat));
      [split; now intros ? ?|exact H].
  - apply (preserves_notify
             (fun v => (exists extra, identities (allowedDevices v) = L ++ extra)
                       /\ (n <= length (allowedDevices v))%nat));
      [now intros ? ?| |exact H].
    intros device. apply grows_replaceAllowedDevice.
Qed.

Lemma grows_run L n ops : forall w,
  (exists extra, identities (allowedDevices w) = L ++ extra)
  /\ (n <= length (allowedDevices w))%nat ->
  (exists extra, identities (allowedDevices (run ops w)) = L ++ extra)
  /\ (n <= length (allowedDevices (run ops w)))%nat.
Proof.
  induction ops as [|op ops IH]; intros w H; simpl; [exact H|].
  apply IH. now apply grows_step.
Qed.

(** X12. Whatever operations follow, the identity triples of the allowed
    devices stay, in their order, at the head of those of the later list,
    and the list never gets shorter: no operation removes an allowed device
    or takes a permission back. *)
Theorem permissions_never_revoked ops w :
  (exists extra,
     identities (allowedDevices (run ops w)) = identities (allowedDevices w) ++ extra) /\
  (length (allowedDevices w) <= length (allowedDevices (run ops w)))%nat.
Proof.
  apply grows_run. split; [exists []; now rewrite app_nil_r | lia].
Qed.

(** ** Before the first request *)

Lemma nothing_allowed_step w op :
  isRequest op = false -> allowedDevices w = [] -> allowedDevices (step w op) = [].
Proof.
  intros Hop E.
  destruct (step_not_request (identities (allowedDevices w)) (length (allowedDevices w))
              w op Hop (conj eq_refl eq_refl)) as [_ Hlen].
  rewrite E in Hlen. now destruct (allowedDevices (step w op)).
Qed.

Lemma nothing_allowed_run ops : forall w,
  forallb (fun op => negb (isRequest op)) ops = true ->
  allowedDevices w = [] -> allowedDevices (run ops w) = [].
Proof.
  induction ops as [|op ops IH]; intros w Hops E; simpl; [exact E|].
  simpl in Hops. apply andb_true_iff in Hops as [Hop Hops].
  apply IH; [exact Hops|]. apply nothing_allowed_step; [|exact E].
  now apply negb_true_iff.
Qed.

Lemma forEach_idle {A} (f : A -> M unit) l w :
  (forall x, f x w = (Normal tt, w)) -> forEach f l w = (Normal tt, w).
Proof.
  intros Hf. induction l as [|x l IH]; [reflexivity|]. simpl.
  now rewrite (bind_normal _ _ _ _ _ (Hf x)).
Qed.

Lemma notify_nothing_allowed n w : allowedDevices w = [] -> notify n w = (Normal tt, w).
Proof.
  intros E. unfold notify. unfold bind at 1. unfold gets at 1.
  apply forEach_idle. intros callback.
  destruct callback, n; try reflexivity; simpl.
  - unfold deviceConnectCallback. unfold bind at 1.
    rewrite replaceAllowedDevice_spec, E. reflexivity.
  - unfold deviceDisconnectCallback. unfold bind at 1. unfold gets at 1. rewrite E.
    reflexivity.
Qed.

(** X17. As long as no request has been made on an instance, whatever
    discoveries, listeners and notifications there were: no device is
    allowed, [getDevices] resolves with no device whatever the adapter
    lists, and a notification of the adapter changes nothing and is relayed
    to no listener. *)
Theorem nothing_before_a_request options foreign ops :
  forallb (fun op => negb (isRequest op)) ops = true ->
  let w := run ops (new_USB options foreign) in
  allowedDevices w = [] /\
  (forall devices, fst (getDevices (Normal devices) w) = Normal []) /\
  (forall n, notify n w = (Normal tt, w)).
Proof.
  intros Hops. cbv zeta.
  pose proof (nothing_allowed_run ops _ Hops (new_USB_allowedDevices options foreign)) as E.
  split; [exact E|]. split.
  - intros devices. unfold getDevices, listUSBDevices.
    unfold bind at 1. unfold bind at 1. unfold modify, ret.
    rewrite (filterM_pure getDevices_callback
               (fun device => connected device
                              && bool_decide (identity device ∈ map identity []))).
    + simpl. f_equal. apply filter_none. intros x. apply andb_false_r.
    + intros d. now apply getDevices_callback_spec.
  - intros n. now apply notify_nothing_allowed.
Qed.

Lemma nothing_before_a_request_witness :
  let w := run [AddListener connect 1; Notify (DeviceConnected hidDevice);
                GetDevices (Normal [hidDevice])] (new_USB None (fun _ => [])) in
  fst (getDevices (Normal [hidDevice; otherDevice]) w) = Normal [] /\
  log w = [ListUSBDevices].
Proof.
  cbv zeta. split; [|reflexivity].
  apply (nothing_before_a_request None (fun _ => [])
           [AddListener connect 1; Notify (DeviceConnected hidDevice);
            GetDevices (Normal [hidDevice])]).
  reflexivity.
Defined.

(** ** The entry [undefined] stays *)

Lemma replaceFirst_undefined_entry device :
  replaceFirst device [None] = Throw (PropertyOfUndefined "productId").
Proof. now destruct device. Qed.

Lemma stuck_selectFn device :
  preserves (fun v => allowedDevices v = [None]) (selectFn device).
Proof.
  intros w E. rewrite selectFn_spec, E, replaceFirst_undefined_entry. exact E.
Qed.

Lemma stuck_replaceAllowedDevice device :
  preserves (fun v => allowedDevices v = [None]) (replaceAllowedDevice device).
Proof.
  intros w E. rewrite replaceAllowedDevice_spec, E, replaceFirst_undefined_entry. exact E.
Qed.

Lemma stuck_step w op : allowedDevices w = [None] -> allowedDevices (step w op) = [None].
Proof.
  intros H. destruct op as [e|options e|event id|event id|ntf]; simpl.
  - now apply (preserves_getDevices (fun v => allowedDevices v = [None]) e).
  - apply (requestDevice_keeps (fun v => allowedDevices v = [None]));
      try assumption; try now intros ? ?.
    intros device. apply stuck_selectFn.
  - apply (preserves_on (fun v => allowedDevices v = [None]));
      [split; now intros ? ?|exact H].
  - apply (preserves_off (fun v => allowedDevices v = [None]));
      [split; now intros ? ?|exact H].
  - apply (preserves_notify (fun v => allowedDevices v = [None]));
      [now intros ? ?| |exact H].
    intros device. apply stuck_replaceAllowedDevice.
Qed.

Lemma stuck_run ops : forall w,
  allowedDevices w = [None] -> allowedDevices (run ops w) = [None].
Proof.
  induction ops as [|op ops IH]; intros w H; simpl; [exact H|].
  apply IH. now apply stuck_step.
Qed.

Lemma getDevices_callback_undefined_entry d w :
  allowedDevices w = [None] -> connected d = true ->
  getDevices_callback d w = (Throw (PropertyOfUndefined "productId"), w).
Proof.
  intros E Hd. unfold getDevices_callback. rewrite Hd. cbn [negb].
  unfold bind at 1. unfold gets at 1. rewrite E. cbn [length seq getDevices_loop].
  unfold bind at 1. unfold allowedDevice_at, gets. rewrite E. reflexivity.
Qed.

Lemma getDevices_callback_unplugged d w :
  connected d = false -> getDevices_callback d w = (Normal false, w).
Proof. intros Hd. unfold getDevices_callback. now rewrite Hd. Qed.

Lemma getDevices_undefined_entry l1 d l2 w :
  allowedDevices w = [None] ->
  Forall (fun x => connected x = false) l1 -> connected d = true ->
  fst (filterM getDevices_callback (l1 ++ d :: l2) w)
  = Throw (PropertyOfUndefined "productId").
Proof.
  intros E H1 Hd. induction H1 as [|x l1 Hx _ IH]; simpl.
  - now rewrite (bind_throw _ _ _ _ _ (getDevices_callback_undefined_entry d w E Hd)).
  - rewrite (bind_normal _ _ _ _ _ (getDevices_callback_unplugged x w Hx)).
    unfold bind.
    destruct (filterM getDevices_callback (l1 ++ d :: l2) w) as [[r|t] w'];
      simpl in *; congruence.
Qed.

(** X13. Once the allowed devices are the one entry [undefined], they stay
    so whatever operations follow; every request in that state is rejected,
    none resolves; and a discovery is rejected as soon as the adapter lists
    a connected device. *)
Theorem undefined_entry_is_permanent w :
  allowedDevices w = [None] ->
  (forall ops, allowedDevices (run ops w) = [None]) /\
  (forall options enumeration,
     exists reason, fst (requestDevice options enumeration w) = Some (Rejected reason)) /\
  (forall l1 d l2,
     Forall (fun x => connected x = false) l1 -> connected d = true ->
     fst (getDevices (Normal (l1 ++ d :: l2)) w) = Throw (PropertyOfUndefined "productId")).
Proof.
  intros E. split; [|split].
  - intros ops. now apply stuck_run.
  - intros options enumeration.
    pose proof (requestDevice_settles options enumeration w) as Hs.
    destruct (fst (requestDevice options enumeration w)) as [[v|reason]|] eqn:Er;
      [|eauto|now destruct Hs].
    destruct (resolved_request_allowedDevices _ _ _ _ Er) as (d & _ & H).
    rewrite E, replaceFirst_undefined_entry in H. destruct H.
  - intros l1 d l2 H1 Hd. unfold getDevices, listUSBDevices.
    unfold bind at 1. unfold bind at 1. unfold modify, ret.
    now apply getDevices_undefined_entry.
Qed.

Lemma undefined_entry_is_permanent_witness :
  let w := snd (requestDevice (OptionsObject (FiltersArray [Filter.empty]))
                  (Normal [hidDevice]) (withCallback nothingSelected)) in
  allowedDevices w = [None] /\
  allowedDevices (run [RequestDevice (OptionsObject (FiltersArray [Filter.empty]))
                         (Normal [hidDevice])] w) = [None] /\
  fst (getDevices (Normal ([hidDeviceUnplugged] ++ hidDevice :: [])) w)
  = Throw (PropertyOfUndefined "productId").
Proof.
  cbv zeta. split; [reflexivity|].
  destruct (undefined_entry_is_permanent
              (snd (requestDevice (OptionsObject (FiltersArray [Filter.empty]))
                      (Normal [hidDevice]) (withCallback nothingSelected))) eq_refl)
    as (Hrun & _ & Hget).
  split; [apply Hrun|]. apply Hget; [repeat constructor | reflexivity].
Defined.

(** ** The listeners of other parties *)

Lemma filter_foreign_app_own l callback :
  isForeign callback = false ->
  List.filter isForeign (l ++ [callback]) = List.filter isForeign l.
Proof. intros H. rewrite List.filter_app. simpl. rewrite H. apply app_nil_r. Qed.

Lemma removeLast_filter_foreign callback l :
  isForeign callback = false ->
  List.filter isForeign (default l (removeLast callback l)) = List.filter isForeign l.
Proof.
  intros H. induction l as [|y l IH]; simpl; [reflexivity|].
  destruct (removeLast callback l) as [r|]; simpl in *.
  - now rewrite IH.
  - destruct (decide (y = callback)) as [->|]; simpl; [now rewrite H | reflexivity].
Qed.

Lemma foreign_adapter_addListener F event callback :
  isForeign callback = false ->
  preserves (fun v => forall e, List.filter isForeign (adapterListeners v e) = F e)
    (adapter_addListener event callback).
Proof.
  intros H w Hw e. simpl. unfold at_key.
  destruct (decide (e = event)); [|apply Hw].
  now rewrite filter_foreign_app_own.
Qed.

Lemma foreign_adapter_removeListener F event callback :
  isForeign callback = false ->
  preserves (fun v => forall e, List.filter isForeign (adapterListeners v e) = F e)
    (adapter_removeListener event callback).
Proof.
  intros H w Hw e. simpl. unfold at_key.
  destruct (decide (e = event)); [|apply Hw].
  now rewrite removeLast_filter_foreign.
Qed.

Lemma foreign_announce F name event :
  preserves (fun v => forall e, List.filter isForeign (adapterListeners v e) = F e)
    (announce name event).
Proof.
  unfold announce. apply preserves_bind; [auto with keeps|]. intros receivers.
  apply preserves_forEach. intros listener. destruct listener; simpl; [| |auto with keeps].
  - unfold onNewListener, listenerCount. apply preserves_bind; [auto with keeps|].
    intros count. apply preserves_if; [auto with keeps|].
    destruct event; auto using foreign_adapter_addListener with keeps.
  - unfold onRemoveListener, listenerCount. apply preserves_bind; [auto with keeps|].
    intros count. apply preserves_if; [auto with keeps|].
    destruct event; auto using foreign_adapter_removeListener with keeps.
Qed.

Lemma foreign_step F w op :
  (forall e, List.filter isForeign (adapterListeners w e) = F e) ->
  forall e, List.filter isForeign (adapterListeners (step w op) e) = F e.
Proof.
  intros H. destruct op as [en|options en|event id|event id|ntf]; simpl.
  - now apply (preserves_getDevices
                 (fun v => forall e, List.filter isForeign (adapterListeners v e) = F e) en).
  - apply (requestDevice_keeps
             (fun v => forall e, List.filter isForeign (adapterListeners v e) = F e));
      try assumption; try now intros ? ?.
    intros device. apply preserves_selectFn; now intros ? ?.
  - unfold on. apply preserves_bind; [apply foreign_announce| |exact H].
    intros _. apply preserves_modify. now intros ? ?.
  - unfold off. apply preserves_bind; [auto with keeps| |exact H]. intros registered.
    destruct (removeLast (Client id) registered); [|auto with keeps].
    apply preserves_bind; [|intros _; apply foreign_announce].
    apply preserves_modify. now intros ? ?.
  - apply (preserves_notify
             (fun v => forall e, List.filter isForeign (adapterListeners v e) = F e));
      [now intros ? ?| |exact H].
    intros device. apply preserves_replaceAllowedDevice. now intros ? ?.
Qed.

Lemma filter_foreign_all ids : List.filter isForeign (map Foreign ids) = map Foreign ids.
Proof. induction ids as [|i ids IH]; simpl; [reflexivity | now rewrite IH]. Qed.

(** X11. The instance adds to and removes from the listeners of the adapter
    only its own two callbacks: whatever operations run, from whatever
    state, the callbacks that other parties have subscribed to each native
    event are the same, in the same order; from a new instance they are the
    ones that were there before it. *)
Theorem foreign_subscriptions_untouched ops :
  (forall w event,
     List.filter isForeign (adapterListeners (run ops w) event)
     = List.filter isForeign (adapterListeners w event)) /\
  (forall options foreign event,
     List.filter isForeign (adapterListeners (run ops (new_USB options foreign)) event)
     = map Foreign (foreign event)).
Proof.
  assert (forall w event,
            List.filter isForeign (adapterListeners (run ops w) event)
            = List.filter isForeign (adapterListeners w event)) as H.
  { induction ops as [|op ops IH]; intros w event; simpl; [reflexivity|].
    rewrite IH. now apply (foreign_step (fun e => List.filter isForeign (adapterListeners w e))). }
  split; [exact H|]. intros options foreign event. rewrite H.
  destruct options; simpl; apply filter_foreign_all.
Qed.

(** ** One relayed event per notification *)

Lemma forEach_connect_unsubscribed d l w :
  count_occ AdapterCallback_eq_dec l ConnectCallback = 0%nat ->
  forEach (runAdapterCallback (DeviceConnected d)) l w = (Normal tt, w).
Proof.
  revert w. induction l as [|c l IH]; intros w; [reflexivity|].
  cbn [count_occ forEach].
  destruct (AdapterCallback_eq_dec c ConnectCallback) as [->|Hc]; [discriminate|].
  intros H. destruct c; [congruence| |];
    (rewrite (bind_normal _ _ w tt w eq_refl); now apply IH).
Qed.

Lemma forEach_connect_subscribed_once d l w w' :
  count_occ AdapterCallback_eq_dec l ConnectCallback = 1%nat ->
  deviceConnectCallback d w = (Normal tt, w') ->
  forEach (runAdapterCallback (DeviceConnected d)) l w = (Normal tt, w').
Proof.
  intros Hcount Hcb. induction l as [|c l IH]; [discriminate|].
  cbn [count_occ forEach] in *.
  destruct (AdapterCallback_eq_dec c ConnectCallback) as [->|Hc].
  - injection Hcount as Hcount. cbn [runAdapterCallback].
    rewrite (bind_normal _ _ _ _ _ Hcb). now apply forEach_connect_unsubscribed.
  - destruct c; [congruence| |];
      (rewrite (bind_normal _ _ w tt w eq_refl); now apply IH).
Qed.

Lemma deviceConnectCallback_records d (allowed : list USBDevice) w :
  allowedDevices w = map Some allowed ->
  identity d ∈ map identity allowed ->
  deviceConnectCallback d w
  = (Normal tt,
     record (Emit connect d (listeners w connect))
       (set_allowedDevices (fun _ => map Some (upsert d allowed)) w)).
Proof.
  intros E Hin. unfold deviceConnectCallback. unfold bind at 1.
  rewrite replaceAllowedDevice_spec, E, replaceFirst_upsert, existsb_sameIdentity.
  now rewrite (bool_decide_eq_true_2 _ Hin).
Qed.

Lemma notify_connect d w :
  notify (DeviceConnected d) w
  = forEach (runAdapterCallback (DeviceConnected d))
      (adapterListeners w EVENT_DEVICE_CONNECT) w.
Proof. reflexivity. Qed.

(** X15. In a state the operations reach from a new instance, with allowed
    device records, a connect notification of the adapter for a device
    whose identity is allowed: while connect has at least one listener, the
    event is relayed once, to those listeners, and the record is then among
    the allowed devices; while connect has no listener, the notification
    changes nothing, and the stored record is not refreshed. *)
Theorem connect_relayed_once_while_listened options foreign ops d (allowed : list USBDevice) :
  let w := run ops (new_USB options foreign) in
  allowedDevices w = map Some allowed ->
  identity d ∈ map identity allowed ->
  (listeners w connect <> [] ->
   log (snd (notify (DeviceConnected d) w))
   = log w ++ [Emit connect d (listeners w connect)] /\
   Some d ∈ allowedDevices (snd (notify (DeviceConnected d) w))) /\
  (listeners w connect = [] -> notify (DeviceConnected d) w = (Normal tt, w)).
Proof.
  cbv zeta. intros E Hin.
  destruct (run_relayInvariant ops _ (new_USB_relayInvariant options foreign))
    as [_ _ Hc _].
  unfold subscriptions in Hc. rewrite !notify_connect. split.
  - intros Hl. destruct (listeners _ connect) as [|x ls] eqn:El; [congruence|].
    cbn [length Nat.eqb] in Hc.
    rewrite (forEach_connect_subscribed_once d _ _ _ Hc
               (deviceConnectCallback_records d allowed _ E Hin)).
    rewrite El. split; [reflexivity|]. cbn. apply elem_of_map_Some, upsert_member.
  - intros Hl. rewrite Hl in Hc. cbn [length Nat.eqb] in Hc.
    now apply forEach_connect_unsubscribed.
Qed.

Lemma connect_relayed_once_while_listened_witness :
  let request := RequestDevice (OptionsObject (FiltersArray [classOnly]))
                   (Normal [hidDeviceUnplugged]) in
  let listening := run [request; AddListener connect 1; AddListener connect 2]
                     (new_USB None (fun _ => [])) in
  let idle := run [request] (new_USB None (fun _ => [])) in
  log (snd (notify (DeviceConnected hidDevice) listening))
  = [ListUSBDevices; Emit connect hidDevice [Client 1; Client 2]] /\
  allowedDevices (snd (notify (DeviceConnected hidDevice) idle)) = [Some hidDeviceUnplugged].
Proof.
  cbv zeta. split.
  - destruct (connect_relayed_once_while_listened None (fun _ => [])
                [RequestDevice (OptionsObject (FiltersArray [classOnly]))
                   (Normal [hidDeviceUnplugged]);
                 AddListener connect 1; AddListener connect 2]
                hidDevice [hidDeviceUnplugged] eq_refl) as [Hlistened _].
    + apply list_elem_of_here.
    + destruct Hlistened as [Hlog _]; [discriminate|]. rewrite Hlog. reflexivity.
  - destruct (connect_relayed_once_while_listened None (fun _ => [])
                [RequestDevice (OptionsObject (FiltersArray [classOnly]))
                   (Normal [hidDeviceUnplugged])]
                hidDevice [hidDeviceUnplugged] eq_refl) as [_ Hidle].
    + apply list_elem_of_here.
    + rewrite Hidle; reflexivity.
Defined.

(** ** The calls a request makes *)

Lemma checkFilter_true_complete f w w' :
  checkFilter f w = (Normal true, w') -> hierarchyComplete f = true.
Proof.
  unfold checkFilter, hierarchyComplete, protocolWithoutSubclass, subclassWithoutClass.
  repeat match goal with |- context [if ?b then _ else _] => destruct b end;
    unfold bind, reject, settle, modify, ret; simpl; congruence.
Qed.

Lemma every_checkFilter_true_complete fs : forall w w',
  every checkFilter fs w = (Normal true, w') -> forallb hierarchyComplete fs = true.
Proof.
  induction fs as [|f fs IH]; intros w w'; simpl; [reflexivity|].
  unfold bind. destruct (checkFilter f w) as [[[]|t] w1] eqn:Hf; try discriminate.
  intros H. rewrite (checkFilter_true_complete f w w1 Hf). simpl. exact (IH _ _ H).
Qed.

Lemma requestDevice_log_refused fs enumeration w :
  forallb hierarchyComplete fs = false ->
  log (snd (requestDevice (OptionsObject (FiltersArray fs)) enumeration w)) = log w.
Proof.
  intros Hfs. rewrite requestDevice_log. unfold requestDevice_executor. unfold bind.
  pose proof (preserves_every (fun v => log v = log w) checkFilter fs
                (fun f => preserves_checkFilter (fun v => log v = log w) f
                            (fun _ _ H => H))
                (set_settled None w) eq_refl) as Hlog.
  destruct (every checkFilter fs (set_settled None w)) as [[[]|t] w1] eqn:Eev;
    simpl in *; try exact Hlog.
  apply every_checkFilter_true_complete in Eev. congruence.
Qed.

Lemma requestDevice_log_without_callback fs listed w :
  forallb hierarchyComplete fs = true -> devicesFound w = None ->
  log (snd (requestDevice (OptionsObject (FiltersArray fs)) (Normal listed) w))
  = log w ++ [ListUSBDevices].
Proof.
  intros Hfs Hcb. rewrite requestDevice_log.
  rewrite requestDevice_executor_listed by exact Hfs.
  destruct (List.filter (filterDevice {| filters := fs |}) listed) as [|c cs] eqn:Ef.
  - unfold catch, requestDevice_listed. cbv zeta. rewrite Ef. reflexivity.
  - assert (requestDevice_listed {| filters := fs |} listed
              (record ListUSBDevices (set_settled None w))
            = selectFn (Some c) (record ListUSBDevices (set_settled None w))) as H.
    { unfold requestDevice_listed. cbv zeta. rewrite Ef.
      cbn [length Nat.eqb head]. unfold bind at 1. unfold gets at 1.
      cbn [devicesFound record set_settled]. now rewrite Hcb. }
    rewrite (catch_ext _ _ _ _ H).
    apply (preserves_catch (fun v => log v = log w ++ [ListUSBDevices]));
      [| |reflexivity].
    + apply preserves_selectFn; now intros ? ?.
    + intros t. apply preserves_settle. now intros ? ?.
Qed.

(** X16. A request asks the adapter to enumerate at most once and calls the
    selection callback at most once: the trace of outside calls grows by
    nothing (the request was refused before the enumeration), by the
    enumeration alone, or by the enumeration followed by one call of the
    callback with a list of candidates that is not empty. *)
Theorem request_calls_outside options enumeration w :
  exists calls : list Observation,
    log (snd (requestDevice options enumeration w)) = log w ++ calls /\
    (calls = [] \/ calls = [ListUSBDevices] \/
     exists candidates,
       candidates <> [] /\ calls = [ListUSBDevices; DevicesFound candidates]).
Proof.
  destruct options as [| |[| |fs]];
    try (exists []; split; [now rewrite app_nil_r | now left]).
  destruct (forallb hierarchyComplete fs) eqn:Hfs.
  2: { exists []. split; [|now left].
       now rewrite (requestDevice_log_refused fs enumeration w Hfs), app_nil_r. }
  destruct enumeration as [listed|t].
  2: { exists [ListUSBDevices]. split; [|now right; left].
       rewrite requestDevice_log, requestDevice_executor_complete by exact Hfs.
       reflexivity. }
  destruct (devicesFound w) as [found|] eqn:Hcb.
  - rewrite (requestDevice_log_with_callback w fs listed found Hfs Hcb).
    destruct (List.filter (filterDevice {| filters := fs |}) listed) as [|c cs].
    + exists [ListUSBDevices]. split; [reflexivity | now right; left].
    + exists [ListUSBDevices; DevicesFound (c :: cs)]. split; [reflexivity|].
      right. right. exists (c :: cs). split; [discriminate | reflexivity].
  - exists [ListUSBDevices]. split; [|now right; left].
    now apply requestDevice_log_without_callback.
Qed.
